(** * MySQL to PostgreSQL table copy: a shallow embedding of
      [copy-table-mysql-to-postgres.js]

    The development follows the source file top to bottom: the string
    primitives of JavaScript that the script relies on, the type mapper
    ([convertDataType], [convertDefaultValue]), the schema builder
    ([createPostgreSQLTable]), the streaming batch copy
    ([copyTableDataStream]), the verifier ([verifyData]) and the orchestrator
    ([copyTable]).

    Numbers that count rows are natural numbers, timestamps are integers
    (milliseconds), and the quantities of the progress line, which the script
    computes with JavaScript's double-precision arithmetic, are Rocq's
    primitive binary64 floats.  The two database servers and the clock are
    the environment: they are modelled by oracles gathered in [Env], and the
    script's own mutable state is threaded explicitly. *)

From Stdlib Require Import ZArith Ascii String DecimalString DecimalNat.
From Stdlib Require Import PrimFloat SpecFloat FloatOps Uint63.
From stdpp Require Import base gmap strings list fin_maps.

Local Open Scope nat_scope.

(** ** JavaScript string primitives *)

Module JsString.

(** [c.toLowerCase()] on one UTF-16 unit, restricted to the ASCII letters:
    bytes outside [A-Z] are left alone. *)
Definition lower_ascii (c : ascii) : ascii :=
  let n := nat_of_ascii c in
  if (65 <=? n) && (n <=? 90) then ascii_of_nat (n + 32) else c.

Fixpoint toLowerCase (s : string) : string :=
  match s with
  | EmptyString => EmptyString
  | String c s' => String (lower_ascii c) (toLowerCase s')
  end.

(** [s.includes(sub)]: [sub] occurs somewhere in [s]. *)
Fixpoint includes (s sub : string) : bool :=
  String.prefix sub s ||
  match s with
  | EmptyString => false
  | String _ s' => includes s' sub
  end.

(** The rest of [s] after the prefix [p], if [s] starts with [p]. *)
Fixpoint strip_prefix (p s : string) : option string :=
  match p, s with
  | EmptyString, _ => Some s
  | String a p', String b s' =>
      if Ascii.eqb a b then strip_prefix p' s' else None
  | String _ _, EmptyString => None
  end.

(** The character class [\d]. *)
Definition is_digit (c : ascii) : bool :=
  let n := nat_of_ascii c in (48 <=? n) && (n <=? 57).

Fixpoint all_digits (s : string) : bool :=
  match s with
  | EmptyString => true
  | String c s' => is_digit c && all_digits s'
  end.

(** The greedy [\d*] at the head of [s] and what follows it. *)
Fixpoint span_digits (s : string) : string * string :=
  match s with
  | EmptyString => (EmptyString, EmptyString)
  | String c s' =>
      if is_digit c
      then let '(d, r) := span_digits s' in (String c d, r)
      else (EmptyString, s)
  end.

(** [(\d+)] followed by the literal [close], anchored at the head of [s].
    The literal never starts with a digit in this file, so the greedy run is
    the only candidate and no backtracking is needed. *)
Definition digits_then (close : string) (s : string) : option (string * string) :=
  let '(d, r) := span_digits s in
  match d with
  | EmptyString => None
  | String _ _ =>
      match strip_prefix close r with
      | Some r' => Some (d, r')
      | None => None
      end
  end.

(** Decimal rendering of a number inside a template literal. *)
Definition of_nat (n : nat) : string := NilZero.string_of_uint (Nat.to_uint n).
Definition of_Z (z : Z) : string := NilZero.string_of_int (Z.to_int z).

(** [arr.join(sep)]. *)
Fixpoint join (sep : string) (l : list string) : string :=
  match l with
  | [] => EmptyString
  | [x] => x
  | x :: l' => x +:+ sep +:+ join sep l'
  end.

End JsString.

Import JsString.

(** ** Type mapper *)

(** The regular expression [/varchar\((\d+)\)/] anchored at the head of
    [s]: its capture group. *)
Definition varchar_here (s : string) : option string :=
  match strip_prefix "varchar(" s with
  | Some r => fst <$> digits_then ")" r
  | None => None
  end.

(** [type.match(/varchar\((\d+)\)/)]: the capture group of the leftmost
    match. *)
Fixpoint match_varchar (s : string) : option string :=
  match varchar_here s with
  | Some d => Some d
  | None =>
      match s with
      | EmptyString => None
      | String _ s' => match_varchar s'
      end
  end.

(** The regular expression [/decimal\((\d+),(\d+)\)/] anchored at the head of
    [s]: its two capture groups. *)
Definition decimal_here (s : string) : option (string * string) :=
  match strip_prefix "decimal(" s with
  | Some r =>
      match digits_then "," r with
      | Some (p, r') =>
          match digits_then ")" r' with
          | Some (q, _) => Some (p, q)
          | None => None
          end
      | None => None
      end
  | None => None
  end.

(** [type.match(/decimal\((\d+),(\d+)\)/)]: both capture groups of the
    leftmost match. *)
Fixpoint match_decimal (s : string) : option (string * string) :=
  match decimal_here s with
  | Some pq => Some pq
  | None =>
      match s with
      | EmptyString => None
      | String _ s' => match_decimal s'
      end
  end.

Definition convertDataType (mysqlType : string) : string :=
  let type := toLowerCase mysqlType in
  if includes type "int(" then "INTEGER"
  else if includes type "bigint" then "BIGINT"
  else if includes type "smallint" then "SMALLINT"
  else if includes type "tinyint(1)" then "BOOLEAN"
  else if includes type "tinyint" then "INTEGER"
  else if includes type "varchar" then
    match match_varchar type with
    | Some n => "VARCHAR(" +:+ n +:+ ")"
    | None => "VARCHAR(255)"
    end
  else if includes type "text" then "TEXT"
  else if includes type "longtext" then "TEXT"
  else if includes type "mediumtext" then "TEXT"
  else if includes type "decimal" then
    match match_decimal type with
    | Some (p, q) => "DECIMAL(" +:+ p +:+ "," +:+ q +:+ ")"
    | None => "DECIMAL"
    end
  else if includes type "float" then "REAL"
  else if includes type "double" then "DOUBLE PRECISION"
  else if includes type "datetime" then "TIMESTAMP"
  else if includes type "timestamp" then "TIMESTAMP"
  else if includes type "date" then "DATE"
  else if includes type "time" then "TIME"
  else if includes type "json" then "JSON"
  else if includes type "enum" then "VARCHAR(50)"
  else "TEXT".

(** The substrings [convertDataType] tests for, in the order of the source. *)
Definition known_patterns : list string :=
  ["int("; "bigint"; "smallint"; "tinyint(1)"; "tinyint"; "varchar"; "text";
   "longtext"; "mediumtext"; "decimal"; "float"; "double"; "datetime";
   "timestamp"; "date"; "time"; "json"; "enum"].

(** The target type names the mapper can produce: the fixed names, and the two
    sized forms with decimal arguments. *)
Inductive target_type : string -> Prop :=
  | tt_fixed s :
      s ∈ ["INTEGER"; "BIGINT"; "SMALLINT"; "BOOLEAN"; "TEXT"; "DECIMAL";
           "REAL"; "DOUBLE PRECISION"; "TIMESTAMP"; "DATE"; "TIME"; "JSON"] ->
      target_type s
  | tt_varchar n :
      n <> EmptyString -> all_digits n = true ->
      target_type ("VARCHAR(" +:+ n +:+ ")")
  | tt_decimal p q :
      p <> EmptyString -> all_digits p = true ->
      q <> EmptyString -> all_digits q = true ->
      target_type ("DECIMAL(" +:+ p +:+ "," +:+ q +:+ ")").

(** A column default as [DESCRIBE] delivers it: [null], a string, or (for a
    driver that decodes numbers) a number.  [DefNum z] stands for an integer
    of magnitude below 10^21, which [toString()] prints as plain decimal
    digits; larger numbers, which JavaScript prints in exponent form, and
    fractions are outside this type. *)
Inductive DefaultValue :=
  | DefNull
  | DefStr (s : string)
  | DefNum (z : Z).

(** [defaultValue === null || defaultValue === 'NULL']. *)
Definition is_null_default (defaultValue : DefaultValue) : bool :=
  match defaultValue with
  | DefNull => true
  | DefStr s => String.eqb s "NULL"
  | DefNum _ => false
  end.

(** [defaultValue.toString()]. *)
Definition toString (defaultValue : DefaultValue) : string :=
  match defaultValue with
  | DefNull => EmptyString
  | DefStr s => s
  | DefNum z => of_Z z
  end.

(** [convertDefaultValue(defaultValue, dataType)].  The result is only ever
    compared with [null] and spliced into the DDL text, so a number that is
    returned as it is stands here as its decimal rendering.  [defaultStr === 0]
    and [defaultStr === 1] compare a string with a number and are never true. *)
Definition convertDefaultValue (defaultValue : DefaultValue) (dataType : string)
    : option string :=
  if is_null_default defaultValue then None
  else
    let defaultStr := toLowerCase (toString defaultValue) in
    if includes defaultStr "current_timestamp" || includes defaultStr "now()"
    then Some "CURRENT_TIMESTAMP"
    else if String.eqb defaultStr "0" then Some "0"
    else if String.eqb defaultStr "1" then Some "1"
    else
      match defaultValue with
      | DefStr s =>
          if negb (includes defaultStr "current_timestamp")
          then Some ("'" +:+ s +:+ "'")
          else Some s
      | _ => Some (toString defaultValue)
      end.

(** The defaults the script recognises as "the current time". *)
Definition is_time_function (s : string) : bool :=
  includes (toLowerCase s) "current_timestamp" || includes (toLowerCase s) "now()".

(** An unsigned decimal literal. *)
Definition numeric_literal (s : string) : bool :=
  negb (String.eqb s EmptyString) && all_digits s.

(** ** The environment: two database servers and a clock *)

(** A JavaScript value held in a fetched row.  A valid [Date] object is
    represented by the string its [toISOString()] returns; [VInvalidDate] is
    the Invalid Date (what the driver delivers for a zero date such as
    ['0000-00-00']), on which [toISOString()] throws a RangeError. *)
Inductive Value :=
  | VUndefined
  | VNull
  | VNum (z : Z)
  | VStr (s : string)
  | VDate (iso : string)
  | VInvalidDate.

(** One line of [DESCRIBE]: the fields the script reads. *)
Record Column := {
  Field : string;
  Type_ : string;
  Null : string;
  Key : string;
  Default : DefaultValue
}.

(** What the script observes and cannot control.
    - [src_columns t]: the answer of [DESCRIBE t], [None] when it fails;
    - [src_rows k t]: the rows of the source table [t] as the [k]-th
      row-reading statement sent to MySQL sees them ([None]: the statement
      fails); other clients may change the table between two statements;
    - [pg_rejects n sql]: the [n]-th statement sent to PostgreSQL, with text
      [sql], is answered by an error;
    - [now n]: the value of the [n]-th call of [Date.now()]. *)
Record Env := {
  src_columns : string -> option (list Column);
  src_rows : nat -> string -> option (list (gmap string Value));
  pg_rejects : nat -> string -> bool;
  now : nat -> Z
}.

(** What can be observed of a run: statements sent, and the lines of the
    console narration that carry data. *)
Inductive Event :=
  | EvMySQL (sql : string)
  | EvPg (sql : string) (params : list Value)
  | EvPage (offset limit returned : nat)
  | EvInserted (batchNo size : nat)
  | EvBatchFailed (batchNo attempt : nat)
  | EvBatchAbandoned (batchNo : nat)
  | EvSleep (ms : nat)
  | EvProgress (progress speed eta : float)  (* the percentage before [toFixed] *)
  | EvCheckpoint (rows : nat)
  | EvVerify (matched : bool).

(** The state threaded through a run: the tables of the target database (a
    stored row is the list of its values in column order), how many statements
    each server has received, how often the clock was read, and the events so
    far. *)
Record State := {
  pg_tables : gmap string (list (list Value));
  src_reads : nat;
  pg_sent : nat;
  ticks : nat;
  trace : list Event
}.

Definition emit (e : Event) (st : State) : State :=
  {| pg_tables := pg_tables st; src_reads := src_reads st;
     pg_sent := pg_sent st; ticks := ticks st; trace := trace st ++ [e] |}.

(** A call either returns a value or throws. *)
Inductive outcome (A : Type) :=
  | Returned (a : A)
  | Threw.
Arguments Returned {A} a.
Arguments Threw {A}.

Definition nl : string := String "010"%char EmptyString.

Section Handles.

Variable env : Env.

(** [Date.now()]. *)
Definition date_now (st : State) : Z * State :=
  (now env (ticks st),
   {| pg_tables := pg_tables st; src_reads := src_reads st;
      pg_sent := pg_sent st; ticks := S (ticks st); trace := trace st |}).

(** A row-reading statement on the source: it sees the table as it is at
    that moment and lets [view] pick its answer. *)
Definition mysql_execute {A} (sql : string) (tableName : string)
    (view : list (gmap string Value) -> A) (st : State) : option A * State :=
  (view <$> src_rows env (src_reads st) tableName,
   {| pg_tables := pg_tables st; src_reads := S (src_reads st);
      pg_sent := pg_sent st; ticks := ticks st;
      trace := trace st ++ [EvMySQL sql] |}).

(** A statement on the target: [sem] is its meaning on the tables, [None]
    where the server has to refuse it (a missing table, say).  The statement
    is also refused when the environment says so. *)
Definition pg_query {A} (sql : string) (params : list Value)
    (sem : gmap string (list (list Value)) ->
           option (A * gmap string (list (list Value))))
    (st : State) : option A * State :=
  let answer :=
    if pg_rejects env (pg_sent st) sql then None else sem (pg_tables st) in
  (fst <$> answer,
   {| pg_tables := match answer with
                   | Some (_, tables) => tables
                   | None => pg_tables st
                   end;
      src_reads := src_reads st; pg_sent := S (pg_sent st);
      ticks := ticks st; trace := trace st ++ [EvPg sql params] |}).

Definition sem_drop (t : string) (T : gmap string (list (list Value)))
    : option (unit * gmap string (list (list Value))) :=
  Some (tt, delete t T).

Definition sem_create (t : string) (T : gmap string (list (list Value)))
    : option (unit * gmap string (list (list Value))) :=
  match T !! t with
  | Some _ => None
  | None => Some (tt, <[t := []]> T)
  end.

Definition sem_insert (t : string) (rows : list (list Value))
    (T : gmap string (list (list Value)))
    : option (unit * gmap string (list (list Value))) :=
  match T !! t with
  | Some old => Some (tt, <[t := old ++ rows]> T)
  | None => None
  end.

(** [SELECT COUNT( * )]: node-postgres delivers a [bigint] as a string. *)
Definition sem_count (t : string) (T : gmap string (list (list Value)))
    : option (string * gmap string (list (list Value))) :=
  match T !! t with
  | Some rows => Some (of_nat (length rows), T)
  | None => None
  end.

Definition sem_sample (t : string) (n : nat)
    (T : gmap string (list (list Value)))
    : option (list (list Value) * gmap string (list (list Value))) :=
  match T !! t with
  | Some rows => Some (take n rows, T)
  | None => None
  end.

(** ** Schema builder *)

Definition columnDefinition (col : Column) : string :=
  let definition :=
    "    " +:+ Field col +:+ " " +:+ convertDataType (Type_ col) in
  let definition :=
    if String.eqb (Null col) "NO" && negb (String.eqb (Key col) "PRI")
    then definition +:+ " NOT NULL" else definition in
  match convertDefaultValue (Default col) (Type_ col) with
  | Some convertedDefault => definition +:+ " DEFAULT " +:+ convertedDefault
  | None => definition
  end.

(** The text of the [CREATE TABLE] statement. *)
Definition createSQL (tableName : string) (columns : list Column) : string :=
  let sql := "CREATE TABLE " +:+ tableName +:+ " (" +:+ nl in
  let sql := sql +:+ join ("," +:+ nl) (map columnDefinition columns) in
  let sql :=
    match List.find (fun col => String.eqb (Key col) "PRI") columns with
    | Some primaryKey =>
        sql +:+ "," +:+ nl +:+ "    PRIMARY KEY (" +:+ Field primaryKey +:+ ")"
    | None => sql
    end in
  sql +:+ nl +:+ ")".

Definition createPostgreSQLTable (tableName : string) (columns : list Column)
    (st : State) : outcome unit * State :=
  match pg_query ("DROP TABLE IF EXISTS " +:+ tableName) [] (sem_drop tableName) st with
  | (None, st1) => (Threw, st1)
  | (Some _, st1) =>
      match pg_query (createSQL tableName columns) [] (sem_create tableName) st1 with
      | (None, st2) => (Threw, st2)
      | (Some _, st2) => (Returned tt, st2)
      end
  end.

End Handles.

(** ** JavaScript numbers for the progress line *)

Module JsNumber.

(** An integer as a double (exact below 2^53). *)
Definition of_Z (z : Z) : float :=
  if (z <? 0)%Z
  then PrimFloat.opp (PrimFloat.of_uint63 (Uint63.of_Z (- z)))
  else PrimFloat.of_uint63 (Uint63.of_Z z).

(** [Math.round(x)]: the integer nearest to [x], a tie going towards
    +Infinity; NaN, the infinities and the zeros are returned as they are,
    and a negative [x] that rounds to zero gives -0. *)
Definition Math_round (x : float) : float :=
  match Prim2SF x with
  | S754_finite s m e =>
      if (0 <=? e)%Z then x
      else
        let sm := if s then Z.neg m else Z.pos m in
        let k := (- e)%Z in
        let n := Z.shiftr sm k in
        let rem := (sm - Z.shiftl n k)%Z in
        let r := if (2 ^ k <=? 2 * rem)%Z then (n + 1)%Z else n in
        if (r =? 0)%Z then (if s then PrimFloat.neg_zero else PrimFloat.zero)
        else of_Z r
  | _ => x
  end.

(** [Number.isFinite(x)]. *)
Definition isFinite (x : float) : bool :=
  match Prim2SF x with
  | S754_zero _ | S754_finite _ _ _ => true
  | S754_infinity _ | S754_nan => false
  end.

End JsNumber.

(** ** Batch transfer engine *)

Record Config := {
  BATCH_SIZE : nat;
  STREAM_LIMIT : nat;
  MAX_RETRIES : nat;
  CHECKPOINT_INTERVAL : nat;
  MEMORY_CHECK_INTERVAL : nat
}.

#[local] Set Warnings "-abstract-large-number".

Definition CONFIG : Config :=
  {| BATCH_SIZE := 5000;
     STREAM_LIMIT := 10000;
     MAX_RETRIES := 3;
     CHECKPOINT_INTERVAL := 50000;
     MEMORY_CHECK_INTERVAL := 10 |}.

(** The loop variables of [copyTableDataStream]. *)
Record Locals := {
  totalInserted : nat;
  batchCount : nat;
  offset : nat;
  lastProgressTime : Z
}.

(** [arr.slice(i, j)]. *)
Definition slice {A} (l : list A) (i j : nat) : list A := take (j - i) (drop i l).

(** The value bound to a placeholder: a [Date] goes as its ISO string, and
    [value.toISOString()] throws on the Invalid Date ([None]). *)
Definition bind_value (value : Value) : option Value :=
  match value with
  | VDate iso => Some (VStr iso)
  | VInvalidDate => None
  | _ => Some value
  end.

(** The values of one row in column order; a missing property reads as
    [undefined].  [None]: binding one of them threw. *)
Definition row_values (columns : list Column) (row : gmap string Value)
    : option (list Value) :=
  mapM (fun col => bind_value (default VUndefined (row !! Field col))) columns.

(** The values of a batch, row by row.  [None]: binding one of them threw. *)
Definition batch_values (columns : list Column) (batch : list (gmap string Value))
    : option (list (list Value)) :=
  mapM (row_values columns) batch.

(** The inner [columns.forEach] as far as the placeholders go: one
    [$parameterIndex] per column, the index counting on; the result is
    [rowPlaceholders] and the index after the row. *)
Fixpoint row_placeholders (columns : list Column) (parameterIndex : nat)
    : list string * nat :=
  match columns with
  | [] => ([], parameterIndex)
  | _ :: columns' =>
      let '(rest, next) := row_placeholders columns' (S parameterIndex) in
      (("$" +:+ of_nat parameterIndex) :: rest, next)
  end.

(** The outer [batch.forEach]: the [rowPlaceholders] of every row, the
    parameter index running on from row to row. *)
Fixpoint batch_placeholders (columns : list Column)
    (batch : list (gmap string Value)) (parameterIndex : nat)
    : list (list string) :=
  match batch with
  | [] => []
  | _ :: batch' =>
      let '(rowPlaceholders, next) := row_placeholders columns parameterIndex in
      rowPlaceholders :: batch_placeholders columns batch' next
  end.

(** The text of the INSERT.  The placeholders do not depend on the values, so
    the text is given apart from the values, which may fail to bind. *)
Definition batchInsertSQL (tableName : string) (columns : list Column)
    (batch : list (gmap string Value)) : string :=
  let columnNames := join ", " (map Field columns) in
  let placeholders :=
    map (fun rowPlaceholders => "(" +:+ join ", " rowPlaceholders +:+ ")")
      (batch_placeholders columns batch 1) in
  "INSERT INTO " +:+ tableName +:+ " (" +:+ columnNames +:+ ") VALUES "
    +:+ join ", " placeholders.

(** The progress line: percentage, speed and ETA as the script computes
    them. *)
Definition progress_line (totalInserted totalRows : nat)
    (startTime currentTime : Z) : Event :=
  let inserted := JsNumber.of_Z (Z.of_nat totalInserted) in
  let progress :=
    PrimFloat.mul (PrimFloat.div inserted (JsNumber.of_Z (Z.of_nat totalRows)))
                  (JsNumber.of_Z 100) in
  let elapsed := JsNumber.of_Z (currentTime - startTime) in
  let speed :=
    JsNumber.Math_round
      (PrimFloat.div inserted (PrimFloat.div elapsed (JsNumber.of_Z 1000))) in
  let eta :=
    if 0 <? totalInserted
    then JsNumber.Math_round
           (PrimFloat.div
              (JsNumber.of_Z (Z.of_nat totalRows - Z.of_nat totalInserted)) speed)
    else PrimFloat.zero in
  EvProgress progress speed eta.

(** Updates of the loop variables. *)
Definition add_inserted (n : nat) (L : Locals) : Locals :=
  {| totalInserted := totalInserted L + n; batchCount := batchCount L;
     offset := offset L; lastProgressTime := lastProgressTime L |}.

Definition next_batch (L : Locals) : Locals :=
  {| totalInserted := totalInserted L; batchCount := S (batchCount L);
     offset := offset L; lastProgressTime := lastProgressTime L |}.

Definition advance_offset (n : nat) (L : Locals) : Locals :=
  {| totalInserted := totalInserted L; batchCount := batchCount L;
     offset := offset L + n; lastProgressTime := lastProgressTime L |}.

Definition set_lastProgressTime (t : Z) (L : Locals) : Locals :=
  {| totalInserted := totalInserted L; batchCount := batchCount L;
     offset := offset L; lastProgressTime := t |}.

(** [x % m === 0] for non-negative integers; [x % 0] is NaN. *)
Definition divides (m x : nat) : bool :=
  if m =? 0 then false else x mod m =? 0.

Section Transfer.

Variable env : Env.
Variable cfg : Config.
Variable tableName : string.
Variable totalRows : nat.
Variable columns : list Column.
Variable startTime : Z.

(** What follows a successful insert inside the [try]: the batch is counted
    and, when more than five seconds have passed since the last one, a
    progress line is printed.  The memory check that comes next only reads
    the process's memory figures and writes to the console; it is left
    out. *)
Definition after_insert (batch : list (gmap string Value)) (L : Locals)
    (st : State) : Locals * State :=
  let L := add_inserted (length batch) L in
  let st := emit (EvInserted (batchCount L) (length batch)) st in
  let '(currentTime, st) := date_now env st in
  if (5000 <? currentTime - lastProgressTime L)%Z
  then (set_lastProgressTime currentTime L,
        emit (progress_line (totalInserted L) totalRows startTime currentTime) st)
  else (L, st).

(** The [try] block up to and including the [await]: the values are bound
    and the statement is built, then the INSERT is sent.  [None]: something
    threw, either [toISOString()] while binding (then nothing is sent) or the
    query. *)
Definition send_batch (batch : list (gmap string Value)) (st : State)
    : option unit * State :=
  match batch_values columns batch with
  | None => (None, st)
  | Some rows =>
      pg_query env (batchInsertSQL tableName columns batch) (concat rows)
        (sem_insert tableName rows) st
  end.

(** The [while (retries < MAX_RETRIES && !batchInserted)] loop of one batch.
    [k] is [MAX_RETRIES - retries], the number of attempts still allowed. *)
Fixpoint insert_with_retry (k retries : nat) (batch : list (gmap string Value))
    (L : Locals) (st : State) : Locals * State :=
  match k with
  | 0 => (L, st)
  | S k' =>
      match send_batch batch st with
      | (Some _, st) => after_insert batch L st
      | (None, st) =>
          let retries := S retries in
          let st := emit (EvBatchFailed (batchCount L) retries) st in
          if MAX_RETRIES cfg <=? retries
          then (L, emit (EvBatchAbandoned (batchCount L)) st)
          else insert_with_retry k' retries batch L
                 (emit (EvSleep (1000 * retries)) st)
      end
  end.

(** The [for (let i = 0; i < rows.length; i += BATCH_SIZE)] loop over one
    fetched page.  [None]: the fuel ran out. *)
Fixpoint batch_loop (fuel : nat) (i : nat) (rows : list (gmap string Value))
    (L : Locals) (st : State) : option (Locals * State) :=
  if i <? length rows then
    match fuel with
    | 0 => None
    | S fuel' =>
        let batch := slice rows i (i + BATCH_SIZE cfg) in
        let '(L, st) :=
          insert_with_retry (MAX_RETRIES cfg) 0 batch (next_batch L) st in
        batch_loop fuel' (i + BATCH_SIZE cfg) rows L st
    end
  else Some (L, st).

(** The page to fetch at the current offset: its size limit and the text of
    the statement. *)
Definition page_limit (L : Locals) : nat :=
  Nat.min (STREAM_LIMIT cfg) (totalRows - offset L).

Definition page_sql (L : Locals) : string :=
  "SELECT * FROM " +:+ tableName +:+ " LIMIT " +:+ of_nat (page_limit L)
    +:+ " OFFSET " +:+ of_nat (offset L).

Definition fetch_page (L : Locals) (st : State)
    : option (list (gmap string Value)) * State :=
  mysql_execute env (page_sql L) tableName
    (fun table => take (page_limit L) (drop (offset L) table)) st.

(** The checkpoint line after a page. *)
Definition checkpoint (L : Locals) (st : State) : State :=
  if divides (CHECKPOINT_INTERVAL cfg) (totalInserted L)
  then emit (EvCheckpoint (totalInserted L)) st else st.

(** The [while (offset < totalRows)] loop.  [None]: the fuel ran out. *)
Fixpoint page_loop (fuel : nat) (L : Locals) (st : State)
    : option (outcome unit * Locals * State) :=
  if offset L <? totalRows then
    match fuel with
    | 0 => None
    | S fuel' =>
        match fetch_page L st with
        | (None, st) => Some (Threw, L, st)
        | (Some rows, st) =>
            let st := emit (EvPage (offset L) (page_limit L) (length rows)) st in
            if length rows =? 0 then Some (Returned tt, L, st)
            else
              match batch_loop fuel 0 rows L st with
              | None => None
              | Some (L, st) =>
                  let L := advance_offset (length rows) L in
                  page_loop fuel' L (checkpoint L st)
              end
        end
    end
  else Some (Returned tt, L, st).

End Transfer.

(** [copyTableDataStream(tableName, totalRows, columns)], with the loop
    variables it ends on. *)
Definition stream_run (env : Env) (cfg : Config) (fuel : nat) (tableName : string)
    (totalRows : nat) (columns : list Column) (st : State)
    : option (outcome unit * Locals * State) :=
  let '(startTime, st0) := date_now env st in
  page_loop env cfg tableName totalRows columns startTime fuel
    {| totalInserted := 0; batchCount := 0; offset := 0;
       lastProgressTime := startTime |} st0.

Definition copyTableDataStream (env : Env) (cfg : Config) (fuel : nat)
    (tableName : string) (totalRows : nat) (columns : list Column) (st : State)
    : option (outcome nat * State) :=
  match stream_run env cfg fuel tableName totalRows columns st with
  | None => None
  | Some (Threw, _, st1) => Some (Threw, st1)
  | Some (Returned _, L, st1) =>
      let '(endTime, st2) := date_now env st1 in
      Some (Returned (totalInserted L), st2)
  end.

(** ** Verifier *)

(** [parseInt(s)] on the unsigned decimal strings a count comes as: the value
    of the leading run of digits, [None] (NaN) when there is none. *)
Fixpoint parse_digits (acc : nat) (s : string) : nat :=
  match s with
  | EmptyString => acc
  | String c s' =>
      if is_digit c then parse_digits (10 * acc + (nat_of_ascii c - 48)) s'
      else acc
  end.

Definition parseInt (s : string) : option nat :=
  match s with
  | EmptyString => None
  | String c _ => if is_digit c then Some (parse_digits 0 s) else None
  end.

Definition count_sql (tableName : string) : string :=
  "SELECT COUNT(*) as count FROM " +:+ tableName.

Definition verifyData (env : Env) (tableName : string) (st : State)
    : outcome unit * State :=
  match mysql_execute env (count_sql tableName) tableName length st with
  | (None, st1) => (Threw, st1)
  | (Some mysqlCount, st1) =>
      match pg_query env (count_sql tableName) [] (sem_count tableName) st1 with
      | (None, st2) => (Threw, st2)
      | (Some postgresCount, st2) =>
          if decide (Some mysqlCount = parseInt postgresCount) then
            let st3 := emit (EvVerify true) st2 in
            match pg_query env ("SELECT * FROM " +:+ tableName +:+ " LIMIT 3") []
                    (sem_sample tableName 3) st3 with
            | (None, st4) => (Threw, st4)
            | (Some _, st4) => (Returned tt, st4)
            end
          else (Returned tt, emit (EvVerify false) st2)
      end
  end.

(** ** Orchestrator *)

Inductive Verdict :=
  | Success          (* "SUCCESS: All records copied successfully!" *)
  | PartialSuccess.  (* "PARTIAL SUCCESS: n records failed to copy" *)

(** The figures of the final summary. *)
Record Report := {
  copiedRows : nat;
  sourceRows : nat;
  postgresCount : option nat;
  countsMatch : bool;
  verdict : Verdict
}.

(** [copyTable()].  [Returned r]: the summary was printed and the process
    left with code 0; [Threw]: the failure banner was printed and the process
    left with code 1.  The size estimate of step 1 is advisory, cannot fail and
    only feeds the console; it is left out.  The clock readings that time the
    phases are kept, since they advance the clock the copy itself reads. *)
Definition copyTable (env : Env) (cfg : Config) (fuel : nat) (st : State)
    : option (outcome Report * State) :=
  let tableName := "users" in
  let tick := fun st => snd (date_now env st) in
  let failed := fun st => Some (Threw, tick st) in
  let st := tick (tick st) in
  let st := emit (EvMySQL ("DESCRIBE " +:+ tableName)) st in
  let '(total, st) :=
    mysql_execute env ("SELECT COUNT(*) as total FROM " +:+ tableName)
      tableName length st in
  match src_columns env tableName, total with
  | Some columns, Some totalRows =>
      let st := tick (tick st) in
      match createPostgreSQLTable env tableName columns st with
      | (Threw, st) => failed st
      | (Returned _, st) =>
          let st := tick (tick st) in
          match copyTableDataStream env cfg fuel tableName totalRows columns st with
          | None => None
          | Some (Threw, st) => failed st
          | Some (Returned copied, st) =>
              let st := tick (tick st) in
              match pg_query env (count_sql tableName) [] (sem_count tableName) st with
              | (None, st) => failed st
              | (Some count, st) =>
                  let st := tick (tick st) in
                  Some (Returned
                          {| copiedRows := copied;
                             sourceRows := totalRows;
                             postgresCount := parseInt count;
                             countsMatch :=
                               bool_decide (Some totalRows = parseInt count);
                             verdict := if copied =? totalRows
                                        then Success else PartialSuccess |},
                        st)
              end
          end
      end
  | _, _ => failed st
  end.

(** ** Observations on a trace *)

(** Sizes of the successfully inserted batches, in order. *)
Definition batch_sizes (evs : list Event) : list nat :=
  omap (fun e => match e with EvInserted _ size => Some size | _ => None end) evs.

(** Rows of the batches whose insert succeeded. *)
Definition rows_inserted (evs : list Event) : nat := sum_list (batch_sizes evs).

(** Pages fetched: offset, limit asked for, rows returned. *)
Definition pages (evs : list Event) : list (nat * nat * nat) :=
  omap (fun e => match e with EvPage o l r => Some (o, l, r) | _ => None end) evs.

(** Backoff delays, in milliseconds. *)
Definition delays (evs : list Event) : list nat :=
  omap (fun e => match e with EvSleep ms => Some ms | _ => None end) evs.

(** Batches given up after the last retry. *)
Definition abandoned (evs : list Event) : list nat :=
  omap (fun e => match e with EvBatchAbandoned b => Some b | _ => None end) evs.

(** Statements sent to either server. *)
Definition statements (evs : list Event) : list string :=
  omap (fun e => match e with
                 | EvMySQL sql | EvPg sql _ => Some sql
                 | _ => None
                 end) evs.

Definition progress_speeds (evs : list Event) : list float :=
  omap (fun e => match e with EvProgress _ speed _ => Some speed | _ => None end) evs.

Definition progress_etas (evs : list Event) : list float :=
  omap (fun e => match e with EvProgress _ _ eta => Some eta | _ => None end) evs.

Definition verdicts (evs : list Event) : list bool :=
  omap (fun e => match e with EvVerify m => Some m | _ => None end) evs.

(** A statement that only reads. *)
Definition is_select (sql : string) : bool := String.prefix "SELECT " sql.

Definition initial_state : State :=
  {| pg_tables := ∅; src_reads := 0; pg_sent := 0; ticks := 0; trace := [] |}.


(** A fetched page [(offset, limit, returned)] stays within the first
    [totalRows] rows. *)
Definition page_within (totalRows : nat) (p : nat * nat * nat) : Prop :=
  p.2 <= p.1.2 /\ p.1.1 + p.1.2 <= totalRows.

(** The state after an INSERT of [batch], with the bound values [rows], was
    sent, and the tables it leaves. *)
Definition sent_insert (tableName : string) (columns : list Column)
    (batch : list (gmap string Value)) (rows : list (list Value))
    (tables : gmap string (list (list Value))) (st : State) : State :=
  {| pg_tables := tables; src_reads := src_reads st; pg_sent := S (pg_sent st);
     ticks := ticks st;
     trace := trace st ++ [EvPg (batchInsertSQL tableName columns batch)
                             (concat rows)] |}.

(** The batch cannot be sent: it does not bind, or the server refuses it. *)
Definition send_fails (env : Env) (tableName : string) (columns : list Column)
    (batch : list (gmap string Value)) (st : State) : Prop :=
  batch_values columns batch = None \/
  pg_rejects env (pg_sent st) (batchInsertSQL tableName columns batch) = true \/
  pg_tables st !! tableName = None.

(** No value of the row is the Invalid Date: every value binds. *)
Definition valid_row (columns : list Column) (row : gmap string Value) : Prop :=
  Forall (fun col => row !! Field col <> Some VInvalidDate) columns.

(** Failed attempts, as the "Batch n failed (attempt a/max)" lines. *)
Definition failures (evs : list Event) : list (nat * nat) :=
  omap (fun e => match e with EvBatchFailed b a => Some (b, a) | _ => None end) evs.

(** ** Scenarios *)

(** A server that never fails, a source table of the given rows, and a clock
    that advances by [step] milliseconds between two readings. *)
Definition steady_env (columns : list Column) (rows : list (gmap string Value))
    (step : Z) : Env :=
  {| src_columns := fun _ => Some columns;
     src_rows := fun _ _ => Some rows;
     pg_rejects := fun _ _ => false;
     now := fun n => (Z.of_nat n * step)%Z |}.

Definition order_items_columns : list Column :=
  [ {| Field := "order_id"; Type_ := "int(11)"; Null := "NO"; Key := "PRI";
       Default := DefNull |};
    {| Field := "product_id"; Type_ := "int(11)"; Null := "NO"; Key := "PRI";
       Default := DefNull |};
    {| Field := "qty"; Type_ := "int(11)"; Null := "NO"; Key := "";
       Default := DefStr "1" |} ].

Definition id_column : Column :=
  {| Field := "id"; Type_ := "int(11)"; Null := "NO"; Key := "PRI";
     Default := DefNull |}.

Definition id_row (n : nat) : gmap string Value := {[ "id" := VNum (Z.of_nat n) ]}.

Definition empty_users : State :=
  {| pg_tables := {[ "users" := [] ]};
     src_reads := 0; pg_sent := 0; ticks := 0; trace := [] |}.


(** The scenario of twelve rows copied in batches of five from pages of
    ten. *)
Definition small_config : Config :=
  {| BATCH_SIZE := 5;
     STREAM_LIMIT := 10;
     MAX_RETRIES := 3;
     CHECKPOINT_INTERVAL := CHECKPOINT_INTERVAL CONFIG;
     MEMORY_CHECK_INTERVAL := MEMORY_CHECK_INTERVAL CONFIG |}.

Definition empty_t1 : State :=
  {| pg_tables := {[ "t1" := [] ]};
     src_reads := 0; pg_sent := 0; ticks := 0; trace := [] |}.

Definition twelve_rows : list (gmap string Value) := map id_row (seq 1 12).

(** A server that refuses every INSERT and nothing else. *)
Definition refusing_env (columns : list Column) (rows : list (gmap string Value))
    : Env :=
  {| src_columns := fun _ => Some columns;
     src_rows := fun _ _ => Some rows;
     pg_rejects := fun _ sql => String.prefix "INSERT" sql;
     now := fun n => Z.of_nat n |}.

(** A server that refuses the first two statements it gets. *)
Definition flaky_env (columns : list Column) (rows : list (gmap string Value))
    : Env :=
  {| src_columns := fun _ => Some columns;
     src_rows := fun _ _ => Some rows;
     pg_rejects := fun n _ => n <? 2;
     now := fun n => Z.of_nat n |}.

(** ** Durations *)

(** [s.padStart(n, c)] with a one-character pad. *)
Definition padStart (n : nat) (c : ascii) (s : string) : string :=
  string_of_list_ascii (replicate (n - String.length s) c) +:+ s.

(** The largest time value of a JavaScript [Date], in milliseconds.  It is
    below 2^53, and no reading of [Date.now()], hence no time elapsed since a
    start in 1970 or later, exceeds it. *)
Definition max_time_value : Z := 8640000000000000.

(** [formatDuration(milliseconds)] on an integer number of milliseconds of
    magnitude up to [max_time_value].  There the script's binary64 arithmetic
    is exact: the quotients by 1000 and by 60 are never closer to an integer
    than a rounding could bridge, so [Math.floor] of a quotient is the floor
    division of integers, and [%] is the remainder that takes the sign of the
    dividend.  Beyond 2^53 the script's output differs from this function,
    and the properties below are stated within the bound. *)
Definition formatDuration (milliseconds : Z) : string :=
  let seconds := (milliseconds / 1000)%Z in
  let minutes := (seconds / 60)%Z in
  let hours := (minutes / 60)%Z in
  if (0 <? hours)%Z then
    of_Z hours +:+ "h " +:+ of_Z (Z.rem minutes 60) +:+ "m "
      +:+ of_Z (Z.rem seconds 60) +:+ "s"
  else if (0 <? minutes)%Z then
    of_Z minutes +:+ "m " +:+ of_Z (Z.rem seconds 60) +:+ "s"
  else if (0 <? seconds)%Z then
    of_Z seconds +:+ "."
      +:+ String.substring 0 2 (padStart 3 "0" (of_Z (Z.rem milliseconds 1000)))
      +:+ "s"
  else of_Z milliseconds +:+ "ms".

(** The two decimal digits of a number below 100. *)
Definition two_digits (n : Z) : string :=
  String (ascii_of_nat (48 + Z.to_nat (n / 10)))
    (String (ascii_of_nat (48 + Z.to_nat (n mod 10))) EmptyString).

(** ** More observations on a trace *)

(** The pages [(offset, limit, returned)] tile the rows from [start] to
    [stop]: each page starts where the one before it ended. *)
Fixpoint tiles (start : nat) (ps : list (nat * nat * nat)) (stop : nat) : Prop :=
  match ps with
  | [] => start = stop
  | (o, _, r) :: ps' => o = start /\ tiles (start + r) ps' stop
  end.

(** Batches counted from [L] to [L1], each of them inserted or given up, the
    inserted ones of 1 to [BATCH_SIZE] rows. *)
Definition accounted (cfg : Config) (L : Locals) (st : State)
    (L1 : Locals) (st1 : State) : Prop :=
  batchCount L <= batchCount L1 /\
  exists evs, trace st1 = trace st ++ evs /\
    length (batch_sizes evs) + length (abandoned evs)
      = batchCount L1 - batchCount L /\
    Forall (fun n => 1 <= n <= BATCH_SIZE cfg) (batch_sizes evs).
(** * Properties *)

(** ** Type mapper *)

Lemma span_digits_all s : all_digits (span_digits s).1 = true.
Proof.
  induction s as [|c s IH]; simpl; [done|].
  destruct (is_digit c) eqn:Hc; [|done].
  destruct (span_digits s) as [d r]; simpl in *. by rewrite Hc, IH.
Qed.

Lemma digits_then_digits close s d r :
  digits_then close s = Some (d, r) -> d <> EmptyString /\ all_digits d = true.
Proof.
  unfold digits_then. pose proof (span_digits_all s) as Hall.
  destruct (span_digits s) as [d' r']; simpl in Hall.
  destruct d' as [|c d']; [done|].
  destruct (strip_prefix close r'); [|done].
  intros [= <- _]. done.
Qed.

Lemma varchar_here_digits s d :
  varchar_here s = Some d -> d <> EmptyString /\ all_digits d = true.
Proof.
  unfold varchar_here. destruct (strip_prefix _ s) as [r|]; [|done].
  destruct (digits_then ")" r) as [[d' r']|] eqn:Hd; [|done].
  intros [= <-]. by eapply digits_then_digits.
Qed.

Lemma match_varchar_digits s d :
  match_varchar s = Some d -> d <> EmptyString /\ all_digits d = true.
Proof.
  induction s as [|c s IH]; cbn [match_varchar];
    destruct (varchar_here _) as [d'|] eqn:Hd; try done;
    intros [= <-]; by eapply varchar_here_digits.
Qed.

Lemma decimal_here_digits s p q :
  decimal_here s = Some (p, q) ->
  (p <> EmptyString /\ all_digits p = true) /\
  (q <> EmptyString /\ all_digits q = true).
Proof.
  unfold decimal_here. destruct (strip_prefix _ s) as [r|]; [|done].
  destruct (digits_then "," r) as [[p' r']|] eqn:Hd1; [|done].
  destruct (digits_then ")" r') as [[q' r'']|] eqn:Hd2; [|done].
  intros [= <- <-]. split; by eapply digits_then_digits.
Qed.

Lemma match_decimal_digits s p q :
  match_decimal s = Some (p, q) ->
  (p <> EmptyString /\ all_digits p = true) /\
  (q <> EmptyString /\ all_digits q = true).
Proof.
  induction s as [|c s IH]; cbn [match_decimal];
    destruct (decimal_here _) as [pq|] eqn:Hd; try done;
    intros [= ->]; by eapply decimal_here_digits.
Qed.

Lemma target_type_fixed s :
  bool_decide
    (s ∈ ["INTEGER"; "BIGINT"; "SMALLINT"; "BOOLEAN"; "TEXT"; "DECIMAL";
          "REAL"; "DOUBLE PRECISION"; "TIMESTAMP"; "DATE"; "TIME"; "JSON"]) = true ->
  target_type s.
Proof. intros H. apply tt_fixed. by apply bool_decide_eq_true in H. Qed.

(** C7. [convertDataType] is a function on all strings (total and
    deterministic by construction); whatever the source type, the result is a
    target type name (one of the fixed names, or a sized VARCHAR / DECIMAL with
    decimal arguments); and a type in which none of the tested substrings occurs
    maps to the generic TEXT. *)
Theorem convertDataType_total (t : string) :
  target_type (convertDataType t) /\
  (forallb (fun p => negb (includes (toLowerCase t) p)) known_patterns = true ->
   convertDataType t = "TEXT").
Proof.
  split.
  - unfold convertDataType.
    repeat match goal with
           | |- target_type (if ?b then _ else _) => destruct b
           end; try (apply target_type_fixed; reflexivity).
    + destruct (match_varchar _) as [n|] eqn:Hn.
      * apply match_varchar_digits in Hn as [? ?]. by apply tt_varchar.
      * by apply (tt_varchar "255").
    + destruct (match_decimal _) as [[p q]|] eqn:Hpq.
      * apply match_decimal_digits in Hpq as [[? ?] [? ?]]. by apply tt_decimal.
      * apply target_type_fixed; reflexivity.
    + by apply (tt_varchar "50").
  - unfold known_patterns, convertDataType. cbn [forallb].
    rewrite !andb_true_iff, !negb_true_iff.
    intros H. destruct_and!.
    repeat match goal with H : includes _ _ = false |- _ => rewrite H; clear H end.
    done.
Qed.

Lemma convertDataType_total_witness :
  target_type (convertDataType "geometry") /\ convertDataType "geometry" = "TEXT".
Proof.
  split.
  - apply (convertDataType_total "geometry").
  - apply (convertDataType_total "geometry"). reflexivity.
Defined.

Lemma prefix_strip p s :
  String.prefix p s = true -> exists r, s = p +:+ r.
Proof.
  revert s; induction p as [|a p IH]; intros s.
  - by exists s.
  - destruct s as [|b s]; simpl; [done|].
    destruct (ascii_dec a b) as [->|]; [|done].
    intros [r ->]%IH. by exists r.
Qed.

Lemma includes_tinyint1_int s :
  includes s "tinyint(1)" = true -> includes s "int(" = true.
Proof.
  induction s as [|c s IH]; [done|].
  cbn [includes]. intros [Hp|Hs]%orb_true_iff.
  - apply prefix_strip in Hp as [r Hr]. simpl in Hr.
    injection Hr as -> ->. reflexivity.
  - rewrite (IH Hs). apply orb_true_r.
Qed.

(** C1. On the three source types of the scenario the mapper gives
    VARCHAR(120) for "varchar(120)" and INTEGER for "tinyint", but INTEGER,
    not BOOLEAN, for "tinyint(1)": the test for "int(" comes first and every
    string containing "tinyint(1)" contains "int(", so no source type at all
    maps to BOOLEAN. *)
Theorem convertDataType_tinyint1_shadowed :
  convertDataType "varchar(120)" = "VARCHAR(120)" /\
  convertDataType "tinyint" = "INTEGER" /\
  convertDataType "tinyint(1)" = "INTEGER" /\
  forall t, convertDataType t <> "BOOLEAN".
Proof.
  repeat split.
  intros t. unfold convertDataType.
  destruct (includes (toLowerCase t) "int(") eqn:Hint; [done|].
  destruct (includes (toLowerCase t) "tinyint(1)") eqn:Htiny.
  { apply includes_tinyint1_int in Htiny. congruence. }
  repeat match goal with
         | |- (if ?b then _ else _) <> _ => destruct b; try done
         end.
  - by destruct (match_varchar _).
  - by destruct (match_decimal _) as [[??]|].
Qed.

Lemma lower_ascii_digit c d :
  is_digit d = true -> lower_ascii c = d -> c = d.
Proof.
  intros Hd <-.
  destruct c as [[] [] [] [] [] [] [] []];
    first [reflexivity | vm_compute in Hd; discriminate Hd].
Qed.

Lemma toLowerCase_digit_char s d :
  is_digit d = true ->
  toLowerCase s = String d EmptyString -> s = String d EmptyString.
Proof.
  intros Hd. destruct s as [|c [|c' s]]; simpl; try done.
  intros [= H]. by rewrite (lower_ascii_digit _ _ Hd H).
Qed.

(** C6 (as the code has it). An absent default, and the string "NULL", stay
    absent; a default in which "current_timestamp" or "now()" occurs, in any
    letter case, becomes CURRENT_TIMESTAMP; the string defaults "0" and "1"
    pass through unquoted; every other string default, the other numeric
    literals included, is wrapped in single quotes as it was written. *)
Theorem convertDefaultValue_cases (dataType : string) :
  convertDefaultValue DefNull dataType = None /\
  convertDefaultValue (DefStr "NULL") dataType = None /\
  (forall s, s <> "NULL" -> is_time_function s = true ->
     convertDefaultValue (DefStr s) dataType = Some "CURRENT_TIMESTAMP") /\
  convertDefaultValue (DefStr "0") dataType = Some "0" /\
  convertDefaultValue (DefStr "1") dataType = Some "1" /\
  (forall s, s <> "NULL" -> is_time_function s = false -> s <> "0" -> s <> "1" ->
     convertDefaultValue (DefStr s) dataType = Some ("'" +:+ s +:+ "'")).
Proof.
  repeat split.
  - intros s Hn Ht. unfold convertDefaultValue, is_time_function in *. simpl.
    apply String.eqb_neq in Hn. by rewrite Hn, Ht.
  - intros s Hn Ht H0 H1. unfold convertDefaultValue, is_time_function in *.
    simpl. apply String.eqb_neq in Hn. rewrite Hn, Ht.
    apply orb_false_iff in Ht as [Ht _]. rewrite Ht. simpl.
    destruct (String.eqb_spec (toLowerCase s) "0") as [E|_].
    { by apply toLowerCase_digit_char in E. }
    destruct (String.eqb_spec (toLowerCase s) "1") as [E|_].
    { by apply toLowerCase_digit_char in E. }
    done.
Qed.

Lemma convertDefaultValue_cases_witness :
  convertDefaultValue (DefStr "now()") "datetime" = Some "CURRENT_TIMESTAMP" /\
  convertDefaultValue (DefStr "Active") "varchar(20)" = Some "'Active'".
Proof.
  split.
  - apply (convertDefaultValue_cases "datetime"); [discriminate | reflexivity].
  - apply (convertDefaultValue_cases "varchar(20)");
      [discriminate | reflexivity | discriminate | discriminate].
Defined.

(** C6 as stated fails: the numeric literal "5" does not pass through
    unquoted, it comes out as the quoted string '5'. *)
Lemma convertDefaultValue_numeric_quoted :
  ~ (forall s dataType, numeric_literal s = true ->
       convertDefaultValue (DefStr s) dataType = Some s).
Proof. intros H. specialize (H "5" "int(11)" eq_refl). discriminate H. Qed.

(** ** Schema builder *)

Lemma append_assoc (s1 s2 s3 : string) :
  (s1 +:+ s2) +:+ s3 = s1 +:+ (s2 +:+ s3).
Proof.
  induction s1 as [|c s1 IH]; [done|].
  change (String c ((s1 +:+ s2) +:+ s3) = String c (s1 +:+ s2 +:+ s3)).
  by f_equal.
Qed.

(** The [CREATE TABLE] text names, in its PRIMARY KEY clause, the first column
    whose key is PRI, whatever follows it. *)
Lemma createSQL_first_key tableName before pk after :
  Forall (fun col => Key col <> "PRI") before ->
  Key pk = "PRI" ->
  createSQL tableName (before ++ pk :: after) =
    ("CREATE TABLE " +:+ tableName +:+ " (" +:+ nl)
      +:+ join ("," +:+ nl) (map columnDefinition (before ++ pk :: after))
      +:+ "," +:+ nl +:+ "    PRIMARY KEY (" +:+ Field pk +:+ ")"
      +:+ nl +:+ ")".
Proof.
  intros Hb Hpk. unfold createSQL.
  assert (List.find (fun col => String.eqb (Key col) "PRI") (before ++ pk :: after)
          = Some pk) as ->.
  { induction Hb as [|c before Hc _ IH]; simpl.
    - by rewrite Hpk.
    - apply String.eqb_neq in Hc. by rewrite Hc. }
  by rewrite !append_assoc.
Qed.

(** When the server accepts both statements, the table is dropped and created
    again empty, whatever it held, by exactly these two statements. *)
Lemma createPostgreSQLTable_fresh env tableName columns st :
  pg_rejects env (pg_sent st) ("DROP TABLE IF EXISTS " +:+ tableName) = false ->
  pg_rejects env (S (pg_sent st)) (createSQL tableName columns) = false ->
  exists st',
    createPostgreSQLTable env tableName columns st = (Returned tt, st') /\
    pg_tables st' = <[tableName := []]> (pg_tables st) /\
    trace st' = trace st ++ [EvPg ("DROP TABLE IF EXISTS " +:+ tableName) [];
                             EvPg (createSQL tableName columns) []].
Proof.
  intros Hdrop Hcreate. unfold createPostgreSQLTable, pg_query.
  rewrite Hdrop. cbn -[createSQL]. rewrite Hcreate.
  unfold sem_create. rewrite lookup_delete_eq. cbn -[createSQL].
  eexists; split; [reflexivity|]. cbn -[createSQL]. split.
  - apply insert_delete_eq.
  - by rewrite <- app_assoc.
Qed.

(** C5. [createPostgreSQLTable] sends DROP TABLE IF EXISTS and then CREATE
    TABLE, and leaves the table empty; a PRI column gets no NOT NULL.  But for
    the composite key (order_id, product_id) the PRIMARY KEY clause names
    order_id alone: product_id, which the source declares NOT NULL as part of
    the key, ends up outside the key and nullable. *)
Theorem createPostgreSQLTable_composite_key :
  let st := {| pg_tables := {[ "order_items" := [[VNum 1; VNum 2; VNum 3]] ]};
               src_reads := 0; pg_sent := 0; ticks := 0; trace := [] |} in
  let '(r, st') :=
    createPostgreSQLTable (steady_env order_items_columns [] 0)
      "order_items" order_items_columns st in
  r = Returned tt /\
  pg_tables st' !! "order_items" = Some [] /\
  trace st' =
    [EvPg "DROP TABLE IF EXISTS order_items" [];
     EvPg ("CREATE TABLE order_items (" +:+ nl +:+
           "    order_id INTEGER," +:+ nl +:+
           "    product_id INTEGER," +:+ nl +:+
           "    qty INTEGER NOT NULL DEFAULT 1," +:+ nl +:+
           "    PRIMARY KEY (order_id)" +:+ nl +:+
           ")") []].
Proof. vm_compute. done. Qed.

(** ** Progress line *)

(** C8. A table of one row whose insert takes six seconds: the copy returns
    1 and prints one progress line, with speed round(1 / 6) = 0 and
    ETA round(0 / 0) = NaN.  With rows left to copy the same speed gives
    ETA = Infinity.  The guard of the ETA tests the rows copied, not the
    speed. *)
Theorem progress_eta_not_finite :
  (exists st',
     copyTableDataStream (steady_env [id_column] [id_row 1] 6000) CONFIG 1
       "users" 1 [id_column] empty_users = Some (Returned 1, st') /\
     progress_speeds (trace st') = [PrimFloat.zero] /\
     map PrimFloat.is_nan (progress_etas (trace st')) = [true]) /\
  progress_speeds [progress_line 1 3 0 6000] = [PrimFloat.zero] /\
  progress_etas [progress_line 1 3 0 6000] = [PrimFloat.infinity] /\
  map JsNumber.isFinite (progress_etas [progress_line 1 3 0 6000]) = [false].
Proof.
  split; [eexists; split; [|split]|split; [|split]]; vm_compute; reflexivity.
Qed.

(** ** Verifier *)

Lemma parse_digits_uint d acc :
  parse_digits acc (NilEmpty.string_of_uint d) = Nat.of_uint_acc d acc.
Proof.
  revert acc; induction d as [|d IH|d IH|d IH|d IH|d IH|d IH|d IH|d IH|d IH|d IH];
    intros acc; [done|..];
    cbn [NilEmpty.string_of_uint parse_digits Nat.of_uint_acc];
    (change (is_digit _) with true; cbv iota; rewrite IH; f_equal;
     rewrite Nat.tail_mul_spec;
     match goal with
     | |- context [nat_of_ascii ?c - 48] =>
         let v := eval vm_compute in (nat_of_ascii c - 48) in
         change (nat_of_ascii c - 48) with v
     end; lia).
Qed.

(** [parseInt] reads back the decimal string of a count. *)
Lemma parseInt_of_nat n : parseInt (of_nat n) = Some n.
Proof.
  rewrite <- (DecimalNat.Unsigned.of_to n) at 2.
  unfold of_nat, NilZero.string_of_uint, Nat.of_uint.
  destruct (Nat.to_uint n) as [|d|d|d|d|d|d|d|d|d|d] eqn:E; [done|..];
    rewrite <- parse_digits_uint; reflexivity.
Qed.

Lemma is_select_count t : is_select (count_sql t) = true.
Proof. reflexivity. Qed.

(** C9. [verifyData] never changes a table of the target and sends only
    SELECT statements, whatever happens.  When both counts can be read, of a
    source table of S rows and a target table of T rows, it returns normally,
    reports "match" exactly when S = T, and has sent each count statement
    once (plus one sample SELECT on a match): nothing is repaired or
    retried. *)
Theorem verifyData_read_only env tableName st :
  let res := verifyData env tableName st in
  pg_tables res.2 = pg_tables st /\
  (exists evs, trace res.2 = trace st ++ evs /\
     forallb is_select (statements evs) = true) /\
  (forall src tgt,
     src_rows env (src_reads st) tableName = Some src ->
     pg_tables st !! tableName = Some tgt ->
     (forall n sql, pg_rejects env n sql = false) ->
     res.1 = Returned tt /\
     exists evs, trace res.2 = trace st ++ evs /\
       verdicts evs = [bool_decide (length src = length tgt)] /\
       statements evs =
         count_sql tableName :: count_sql tableName ::
         (if bool_decide (length src = length tgt)
          then ["SELECT * FROM " +:+ tableName +:+ " LIMIT 3"] else [])).
Proof.
  intros res; subst res.
  unfold verifyData, mysql_execute, pg_query, sem_count, sem_sample, emit.
  split_and!.
  - repeat (case_match; simplify_eq/=); done.
  - repeat (case_match; simplify_eq/=); rewrite <- ?app_assoc; eexists;
      (split; [reflexivity|]); cbn -[count_sql];
      rewrite ?is_select_count; done.
  - intros src tgt Hs Ht Hr. rewrite Hs. cbn -[count_sql].
    rewrite Hr, Ht. cbn -[count_sql]. rewrite parseInt_of_nat.
    destruct (decide (Some (length src) = Some (length tgt))) as [E|E].
    + rewrite Hr, Ht. cbn -[count_sql].
      rewrite bool_decide_eq_true_2 by congruence.
      split; [done|]. eexists. rewrite <- !app_assoc. done.
    + rewrite bool_decide_eq_false_2 by congruence.
      split; [done|]. eexists. cbn -[count_sql]. rewrite <- !app_assoc. done.
Qed.

Lemma verifyData_read_only_witness :
  let st := {| pg_tables := {[ "users" := [[VNum 1]] ]};
               src_reads := 0; pg_sent := 0; ticks := 0; trace := [] |} in
  let res := verifyData (steady_env [id_column] [id_row 1; id_row 2] 0) "users" st in
  res.1 = Returned tt /\
  exists evs, trace res.2 = trace st ++ evs /\
    verdicts evs = [false] /\
    statements evs = [count_sql "users"; count_sql "users"].
Proof.
  intros st res.
  exact (proj2 (proj2 (verifyData_read_only
                         (steady_env [id_column] [id_row 1; id_row 2] 0) "users" st))
           [id_row 1; id_row 2] [[VNum 1]] eq_refl eq_refl (fun _ _ => eq_refl)).
Defined.

(** ** Batch transfer engine *)

Lemma rows_inserted_app a b :
  rows_inserted (a ++ b) = rows_inserted a + rows_inserted b.
Proof. unfold rows_inserted, batch_sizes. by rewrite omap_app, sum_list_with_app. Qed.

Lemma rows_inserted_take_le n evs : rows_inserted (take n evs) <= rows_inserted evs.
Proof.
  rewrite <- (take_drop n evs) at 2. rewrite rows_inserted_app. lia.
Qed.

(** Unfold the observations of a trace built from known pieces. *)
Ltac observe :=
  unfold rows_inserted, batch_sizes, pages, delays, abandoned, statements,
    failures in *;
  rewrite ?omap_app, ?sum_list_with_app in *;
  cbn [omap list_omap sum_list_with id app] in *.

Lemma length_slice {A} (l : list A) i n :
  length (slice l i (i + n)) = Nat.min n (length l - i).
Proof.
  unfold slice. rewrite length_take, length_drop. f_equal. lia.
Qed.

Lemma insert_sql_prefix tableName columns batch :
  String.prefix "INSERT" (batchInsertSQL tableName columns batch) = true.
Proof. reflexivity. Qed.

(** *** Binding the values of a batch *)

(** The parameters of a row none of whose values is an Invalid Date. *)
Abbreviation bound_row columns row :=
  (map (fun col : Column =>
          match row !! Field col with
          | Some (VDate iso) => VStr iso
          | Some v => v
          | None => VUndefined
          end) columns).

Lemma row_values_valid columns row :
  valid_row columns row -> row_values columns row = Some (bound_row columns row).
Proof.
  unfold valid_row, row_values. induction 1 as [|col cols Hcol _ IH]; [done|].
  cbn. cbn in IH. rewrite IH.
  destruct (row !! Field col) as [[]|]; cbn; done.
Qed.

Lemma row_values_Some columns row vs :
  row_values columns row = Some vs -> valid_row columns row.
Proof.
  unfold valid_row, row_values. intros Hrow. apply mapM_Some_1 in Hrow.
  induction Hrow as [|col v cols vs Hcol _ IH]; constructor; [|done].
  intros Hv. rewrite Hv in Hcol. done.
Qed.

Lemma batch_values_valid columns batch :
  Forall (valid_row columns) batch ->
  batch_values columns batch = Some (map (fun row => bound_row columns row) batch).
Proof.
  unfold batch_values. induction 1 as [|row rows Hrow _ IH]; [done|].
  cbn. cbn in IH. by rewrite (row_values_valid _ _ Hrow), IH.
Qed.

Lemma batch_values_Some columns batch rows :
  batch_values columns batch = Some rows -> Forall (valid_row columns) batch.
Proof.
  unfold batch_values. intros Hb. apply mapM_Some_1 in Hb.
  induction Hb as [|row vs batch rows Hrow _ IH]; constructor; [|done].
  by apply row_values_Some in Hrow.
Qed.

Lemma batch_values_invalid columns batch :
  ~ Forall (valid_row columns) batch -> batch_values columns batch = None.
Proof.
  intros Hn. destruct (batch_values columns batch) as [rows|] eqn:Hb; [|done].
  by apply batch_values_Some in Hb.
Qed.

Lemma length_batch_values columns batch rows :
  batch_values columns batch = Some rows ->
  length rows = length batch /\ Forall (fun vs => length vs = length columns) rows.
Proof.
  unfold batch_values. intros Hb. apply mapM_Some_1 in Hb.
  induction Hb as [|row vs batch rows Hrow _ [Hlen Hall]]; [done|].
  cbn. split; [lia|]. constructor; [|done].
  unfold row_values in Hrow. symmetry. by apply (length_mapM _ _ _ Hrow).
Qed.

Section Retry.

Variable env : Env.
Variable cfg : Config.
Variable tableName : string.
Variable totalRows : nat.
Variable columns : list Column.
Variable startTime : Z.

Abbreviation after := (after_insert env totalRows startTime).
Abbreviation retry := (insert_with_retry env cfg tableName totalRows columns startTime).

Abbreviation sent_insert := (sent_insert tableName columns).

Lemma after_insert_spec batch L st :
  let res := after batch L st in
  totalInserted res.1 = totalInserted L + length batch /\
  batchCount res.1 = batchCount L /\ offset res.1 = offset L /\
  pg_tables res.2 = pg_tables st /\ src_reads res.2 = src_reads st /\
  exists evs, trace res.2 = trace st ++ evs /\
    batch_sizes evs = [length batch] /\ pages evs = [] /\
    delays evs = [] /\ abandoned evs = [].
Proof.
  unfold after_insert, date_now, emit. cbn.
  destruct (5000 <? _)%Z; cbn; split_and!; try done.
  - eexists. rewrite <- app_assoc. done.
  - eexists. done.
Qed.

Abbreviation send := (send_batch env tableName columns).

(** Sending one batch, by what happens. *)
Lemma send_batch_accepted batch st rows old :
  batch_values columns batch = Some rows ->
  pg_rejects env (pg_sent st) (batchInsertSQL tableName columns batch) = false ->
  pg_tables st !! tableName = Some old ->
  send batch st =
    (Some tt, sent_insert batch rows (<[tableName := old ++ rows]> (pg_tables st)) st).
Proof.
  intros Hbind Hacc Hold. unfold send_batch, pg_query, sem_insert.
  by rewrite Hbind, Hacc, Hold.
Qed.

Lemma send_batch_rejected batch st rows :
  batch_values columns batch = Some rows ->
  pg_rejects env (pg_sent st) (batchInsertSQL tableName columns batch) = true \/
  pg_tables st !! tableName = None ->
  send batch st = (None, sent_insert batch rows (pg_tables st) st).
Proof.
  intros Hbind Href. unfold send_batch, pg_query, sem_insert. rewrite Hbind.
  destruct Href as [-> | ->]; [done|]. by destruct (pg_rejects _ _ _).
Qed.

Lemma send_batch_unbound batch st :
  batch_values columns batch = None -> send batch st = (None, st).
Proof. intros Hbind. unfold send_batch. by rewrite Hbind. Qed.

Abbreviation send_fails := (send_fails env tableName columns).

Lemma send_batch_cases batch st :
  (exists rows old,
     batch_values columns batch = Some rows /\
     pg_rejects env (pg_sent st) (batchInsertSQL tableName columns batch) = false /\
     pg_tables st !! tableName = Some old) \/
  send_fails batch st.
Proof.
  unfold send_fails.
  destruct (batch_values columns batch) as [rows|]; [|by right; left].
  destruct (pg_rejects _ _ _); [by right; right; left|].
  destruct (pg_tables st !! tableName) as [old|]; [left; by exists rows, old|].
  by right; right; right.
Qed.

(** A batch that cannot be sent leaves the tables and the source alone and
    adds at most the statement itself to the trace. *)
Lemma send_batch_failed batch st :
  send_fails batch st ->
  (send batch st).1 = None /\
  pg_tables (send batch st).2 = pg_tables st /\
  src_reads (send batch st).2 = src_reads st /\
  exists evs, trace (send batch st).2 = trace st ++ evs /\
    batch_sizes evs = [] /\ pages evs = [] /\ delays evs = [] /\
    abandoned evs = [] /\ failures evs = [] /\
    length (statements evs)
      = match batch_values columns batch with Some _ => 1 | None => 0 end.
Proof.
  intros Hfail. destruct (batch_values columns batch) as [rows|] eqn:Hbind.
  - destruct Hfail as [? | Href]; [congruence|].
    rewrite (send_batch_rejected _ _ _ Hbind Href). cbn.
    split_and!; [done..|]. by eexists.
  - rewrite (send_batch_unbound _ _ Hbind). cbn.
    split_and!; [done..|]. exists []. by rewrite app_nil_r.
Qed.

(** One more attempt, by what happens to it. *)
Lemma retry_accepted k r batch L st rows old :
  batch_values columns batch = Some rows ->
  pg_rejects env (pg_sent st) (batchInsertSQL tableName columns batch) = false ->
  pg_tables st !! tableName = Some old ->
  retry (S k) r batch L st =
    after batch L
      (sent_insert batch rows (<[tableName := old ++ rows]> (pg_tables st)) st).
Proof.
  intros Hbind Hacc Hold. cbn [insert_with_retry].
  by rewrite (send_batch_accepted _ _ _ _ Hbind Hacc Hold).
Qed.

Lemma retry_refused k r batch L st :
  send_fails batch st ->
  retry (S k) r batch L st =
    let st := emit (EvBatchFailed (batchCount L) (S r)) (send batch st).2 in
    if MAX_RETRIES cfg <=? S r
    then (L, emit (EvBatchAbandoned (batchCount L)) st)
    else retry k (S r) batch L (emit (EvSleep (1000 * S r)) st).
Proof.
  intros Hfail. cbn [insert_with_retry].
  destruct (send_batch_failed _ _ Hfail) as (Hnone & _).
  destruct (send batch st) as [[[]|] st1]; [done|]. done.
Qed.

(** Whatever happens, the retry loop of a batch leaves the batch counter,
    the offset and the source alone, keeps the target table in place, and
    copies either the whole batch or nothing. *)
Lemma retry_frame k r batch L st :
  let res := retry k r batch L st in
  batchCount res.1 = batchCount L /\ offset res.1 = offset L /\
  src_reads res.2 = src_reads st /\
  (is_Some (pg_tables st !! tableName) -> is_Some (pg_tables res.2 !! tableName)) /\
  exists evs, trace res.2 = trace st ++ evs /\ pages evs = [] /\
    totalInserted res.1 = totalInserted L + rows_inserted evs /\
    rows_inserted evs <= length batch.
Proof.
  revert r L st; induction k as [|k IH]; intros r L st.
  { cbn. split_and!; try done. exists []. rewrite app_nil_r. observe.
    split_and!; [done|done|lia|lia]. }
  destruct (send_batch_cases batch st) as [(rows & old & Hbind & Hacc & Hold) | Hfail].
  - rewrite (retry_accepted _ _ _ _ _ _ _ Hbind Hacc Hold).
    destruct (after_insert_spec batch L
                (sent_insert batch rows (<[tableName := old ++ rows]> (pg_tables st)) st))
      as (Ht & Hb & Ho & Hpg & Hsrc & evs & Htr & Hsz & Hpages & _).
    cbn zeta in *. rewrite Hb, Ho, Hsrc, Hpg, Htr, Ht. cbn.
    split_and!; try done.
    + intros _. rewrite lookup_insert_eq. done.
    + eexists. rewrite <- app_assoc. split; [reflexivity|]. observe.
      rewrite Hsz, Hpages. cbn. split_and!; [done|lia|lia].
  - rewrite (retry_refused _ _ _ _ _ Hfail). cbn zeta.
    destruct (send_batch_failed _ _ Hfail)
      as (_ & Hpg0 & Hsrc0 & evs0 & Htr0 & Hsz0 & Hp0 & _).
    destruct (MAX_RETRIES cfg <=? S r).
    + cbn. rewrite Hpg0, Hsrc0, Htr0. split_and!; try done.
      eexists. rewrite <- !app_assoc.
      split; [reflexivity|]. observe. rewrite Hsz0, Hp0. cbn.
      split_and!; [done|lia|lia].
    + match goal with |- context [retry k (S r) batch L ?s] =>
        destruct (IH (S r) L s) as (Hb & Ho & Hsrc & Hpg & evs & Htr & Hpages & Ht & Hle)
      end.
      cbn zeta in *. rewrite Hb, Ho, Hsrc, Htr, Ht. cbn. rewrite Hsrc0, Htr0.
      split_and!; try done.
      * intros Hsome. apply Hpg. cbn. by rewrite Hpg0.
      * eexists. rewrite <- !app_assoc. split; [reflexivity|]. observe.
        rewrite Hsz0, Hp0, Hpages. cbn. done.
Qed.

End Retry.

Section Loops.

Variable env : Env.
Variable cfg : Config.
Variable tableName : string.
Variable totalRows : nat.
Variable columns : list Column.
Variable startTime : Z.

Abbreviation retry := (insert_with_retry env cfg tableName totalRows columns startTime).
Abbreviation batches := (batch_loop env cfg tableName totalRows columns startTime).
Abbreviation paging := (page_loop env cfg tableName totalRows columns startTime).
Abbreviation fetch := (fetch_page env cfg tableName totalRows).
Abbreviation limit := (page_limit cfg totalRows).

(** *** Loop rules *)

(** An invariant of the batch loop, indexed by the loop counter [i], that
    the retry loop of each batch carries from [i] to [i + BATCH_SIZE] holds
    when the loop is left, with a counter past the end of the page. *)
Lemma batch_loop_rule (I : nat -> Locals -> State -> Prop) rows :
  (forall i L st, i < length rows -> I i L st ->
     let res := retry (MAX_RETRIES cfg) 0 (slice rows i (i + BATCH_SIZE cfg))
                  (next_batch L) st in
     I (i + BATCH_SIZE cfg) res.1 res.2) ->
  forall fuel i L st L' st',
    I i L st -> batches fuel i rows L st = Some (L', st') ->
    exists j, length rows <= j /\ I j L' st'.
Proof.
  intros Hstep. induction fuel as [|fuel IH]; intros i L st L' st' HI;
    cbn [batch_loop]; destruct (Nat.ltb_spec i (length rows)) as [Hlt|Hge];
    try done; try (intros [= <- <-]; by eauto).
  specialize (Hstep i L st Hlt HI).
  destruct (retry _ _ _ _ _) as [L2 st2]. by apply IH.
Qed.

(** With a positive batch size the batch loop ends. *)
Lemma batch_loop_total rows :
  0 < BATCH_SIZE cfg ->
  forall fuel i L st, length rows - i <= fuel -> is_Some (batches fuel i rows L st).
Proof.
  intros HB. induction fuel as [|fuel IH]; intros i L st Hfuel;
    cbn [batch_loop]; destruct (Nat.ltb_spec i (length rows)) as [Hlt|Hge];
    try done; try lia.
  destruct (retry _ _ _ _ _) as [L2 st2]. apply IH. lia.
Qed.

(** Hoare-style rule of the page loop: [J] is kept by a page that was
    fetched and copied; [Q] holds at each of the three ways out (offset at
    the end, fetch error, empty page). *)
Lemma page_loop_rule (J : Locals -> State -> Prop)
    (Q : outcome unit -> Locals -> State -> Prop) :
  (forall L st, J L st -> totalRows <= offset L -> Q (Returned tt) L st) ->
  (forall L st, J L st -> offset L < totalRows -> (fetch L st).1 = None ->
     Q Threw L (fetch L st).2) ->
  (forall L st, J L st -> offset L < totalRows -> (fetch L st).1 = Some [] ->
     Q (Returned tt) L (emit (EvPage (offset L) (limit L) 0) (fetch L st).2)) ->
  (forall L st rows fuel L' st',
     J L st -> offset L < totalRows -> (fetch L st).1 = Some rows -> rows <> [] ->
     batches fuel 0 rows L
       (emit (EvPage (offset L) (limit L) (length rows)) (fetch L st).2)
       = Some (L', st') ->
     J (advance_offset (length rows) L')
       (checkpoint cfg (advance_offset (length rows) L') st')) ->
  forall fuel L st r L' st',
    J L st -> paging fuel L st = Some (r, L', st') -> Q r L' st'.
Proof.
  intros Hend Hthrow Hempty Hpage.
  induction fuel as [|fuel IH]; intros L st r L' st' HJ;
    cbn [page_loop]; destruct (Nat.ltb_spec (offset L) totalRows) as [Hlt|Hge];
    try done; try (intros [= <- <- <-]; by apply Hend).
  specialize (Hthrow L st HJ Hlt). specialize (Hempty L st HJ Hlt).
  specialize (Hpage L st).
  destruct (fetch L st) as [[rows|] st1]; cbn [fst snd] in *.
  - destruct rows as [|row rows].
    + intros [= <- <- <-]. by apply Hempty.
    + cbn [length Nat.eqb].
      destruct (batches _ 0 _ L _) as [[L3 st3]|] eqn:Hb; [|done].
      apply IH. by apply (Hpage (row :: rows) (S fuel) L3 st3).
  - intros [= <- <- <-]. by apply Hthrow.
Qed.

(** *** What a page fetch returns *)

Lemma fetch_page_state L st :
  (fetch L st).2 =
    {| pg_tables := pg_tables st; src_reads := S (src_reads st);
       pg_sent := pg_sent st; ticks := ticks st;
       trace := trace st ++ [EvMySQL (page_sql cfg tableName totalRows L)] |}.
Proof. reflexivity. Qed.

Lemma fetch_page_rows L st rows :
  (fetch L st).1 = Some rows ->
  exists table, src_rows env (src_reads st) tableName = Some table /\
    rows = take (limit L) (drop (offset L) table).
Proof.
  unfold fetch_page, mysql_execute. cbn.
  destruct (src_rows _ _ _) as [table|]; [|done].
  intros [= <-]. eauto.
Qed.

(** A page never holds more rows than are left up to [totalRows]. *)
Lemma fetch_page_length L st rows :
  (fetch L st).1 = Some rows ->
  length rows <= limit L /\ limit L <= totalRows - offset L.
Proof.
  intros (table & _ & ->)%fetch_page_rows.
  rewrite length_take. unfold page_limit. lia.
Qed.

(** *** Facts that hold whatever the servers do *)

Lemma batch_loop_frame fuel rows L st L' st' :
  batches fuel 0 rows L st = Some (L', st') ->
  offset L' = offset L /\ src_reads st' = src_reads st /\
  (is_Some (pg_tables st !! tableName) -> is_Some (pg_tables st' !! tableName)) /\
  exists evs, trace st' = trace st ++ evs /\ pages evs = [] /\
    totalInserted L' = totalInserted L + rows_inserted evs /\
    rows_inserted evs <= length rows.
Proof.
  intros Hrun.
  set (I := fun (i : nat) (L1 : Locals) (st1 : State) =>
       offset L1 = offset L /\ src_reads st1 = src_reads st /\
       (is_Some (pg_tables st !! tableName) ->
        is_Some (pg_tables st1 !! tableName)) /\
       exists evs, trace st1 = trace st ++ evs /\ pages evs = [] /\
         totalInserted L1 = totalInserted L + rows_inserted evs /\
         rows_inserted evs <= Nat.min i (length rows)).
  destruct (batch_loop_rule I rows) with (fuel := fuel) (i := 0) (L := L)
    (st := st) (L' := L') (st' := st')
    as (j & Hj & Ho & Hs & Hpg & evs & Htr & Hp & Ht & Hle); [| |done|].
  - intros i L1 st1 Hi (Ho & Hs & Hpg & evs & Htr & Hp & Ht & Hle).
    destruct (retry_frame env cfg tableName totalRows columns startTime
                (MAX_RETRIES cfg) 0 (slice rows i (i + BATCH_SIZE cfg))
                (next_batch L1) st1)
      as (_ & Ho' & Hs' & Hpg' & evs' & Htr' & Hp' & Ht' & Hle').
    unfold I. cbn zeta. rewrite Ho', Hs', Htr', Ht', Htr. cbn.
    rewrite length_slice in Hle'.
    split_and!; [done|done|by auto|].
    exists (evs ++ evs'). rewrite app_assoc, rows_inserted_app.
    split_and!; [done| |lia|lia].
    unfold pages in *. by rewrite omap_app, Hp, Hp'.
  - unfold I. split_and!; [done|done|done|]. exists []. rewrite app_nil_r.
    split_and!; [done|done| |]; unfold rows_inserted; cbn; lia.
  - split_and!; [done|done|done|]. exists evs. split_and!; [done|done|done|lia].
Qed.

(** With a positive batch size the page loop ends: every page that comes
    back non-empty moves the offset forward. *)
Lemma page_loop_total :
  0 < BATCH_SIZE cfg ->
  forall fuel L st, totalRows - offset L <= fuel -> is_Some (paging fuel L st).
Proof.
  intros HB. induction fuel as [|fuel IH]; intros L st Hfuel;
    cbn [page_loop]; destruct (Nat.ltb_spec (offset L) totalRows) as [Hlt|Hge];
    try done; try lia.
  destruct (fetch L st) as [[rows|] st1] eqn:Hf; [|done].
  destruct (fetch_page_length L st rows) as [Hlen Hlim]; [by rewrite Hf|].
  destruct rows as [|row rows]; [done|]. cbn [length Nat.eqb].
  destruct (batch_loop_total (row :: rows) HB (S fuel) 0 L
              (emit (EvPage (offset L) (limit L) (length (row :: rows))) st1))
    as [[L3 st3] Hb]; [cbn in *; lia|].
  cbn [length] in Hb. rewrite Hb.
  apply batch_loop_frame in Hb as (Ho & _).
  apply IH. cbn in *. lia.
Qed.

End Loops.

Section Bound.

Variable env : Env.
Variable cfg : Config.
Variable tableName : string.
Variable totalRows : nat.
Variable columns : list Column.
Variable startTime : Z.

Abbreviation paging := (page_loop env cfg tableName totalRows columns startTime).
Abbreviation fetch := (fetch_page env cfg tableName totalRows).

Lemma checkpoint_spec L st :
  pg_tables (checkpoint cfg L st) = pg_tables st /\
  src_reads (checkpoint cfg L st) = src_reads st /\
  exists evs, trace (checkpoint cfg L st) = trace st ++ evs /\
    batch_sizes evs = [] /\ pages evs = [] /\ abandoned evs = [] /\
    delays evs = [].
Proof.
  unfold checkpoint. destruct (divides _ _); cbn; split_and!; try done.
  - by eexists.
  - exists []. by rewrite app_nil_r.
Qed.

(** The invariant of the page loop: the rows copied so far are at most the
    offset, the offset is at most [totalRows], and every page asked for lies
    within the first [totalRows] rows. *)
Lemma page_loop_bound fuel L st r L' st' :
  offset L <= totalRows ->
  paging fuel L st = Some (r, L', st') ->
  offset L' <= totalRows /\
  exists evs, trace st' = trace st ++ evs /\
    totalInserted L' = totalInserted L + rows_inserted evs /\
    offset L + rows_inserted evs <= offset L' /\
    Forall (page_within totalRows) (pages evs).
Proof.
  intros Hoff.
  set (J := fun (L1 : Locals) (st1 : State) =>
    offset L1 <= totalRows /\
    exists evs, trace st1 = trace st ++ evs /\
      totalInserted L1 = totalInserted L + rows_inserted evs /\
      offset L + rows_inserted evs <= offset L1 /\
      Forall (page_within totalRows) (pages evs)).
  apply (page_loop_rule env cfg tableName totalRows columns startTime J
           (fun _ => J)).
  - done.
  - intros L1 st1 (Ho & evs & Htr & Ht & Hle & Hp) Hlt _.
    split; [done|]. rewrite fetch_page_state. cbn. rewrite Htr.
    eexists. rewrite <- app_assoc. split; [reflexivity|].
    observe. rewrite app_nil_r. split_and!; [lia|lia|done].
  - intros L1 st1 (Ho & evs & Htr & Ht & Hle & Hp) Hlt Hf.
    apply fetch_page_length in Hf as [_ Hlim].
    split; [done|]. rewrite fetch_page_state. cbn. rewrite Htr.
    eexists. rewrite <- !app_assoc. split; [reflexivity|].
    observe. split_and!; [lia|lia|].
    apply Forall_app. split; [done|]. apply Forall_singleton.
    unfold page_within; cbn. lia.
  - intros L1 st1 rows fuel1 L2 st2 (Ho & evs & Htr & Ht & Hle & Hp) Hlt Hf Hne Hb.
    apply fetch_page_length in Hf as [Hlen Hlim].
    apply batch_loop_frame in Hb as (Ho2 & _ & _ & evs2 & Htr2 & Hp2 & Ht2 & Hle2).
    destruct (checkpoint_spec (advance_offset (length rows) L2) st2)
      as (_ & _ & evs3 & Htr3 & Hsz3 & Hp3 & _).
    split; [cbn; lia|]. rewrite Htr3, Htr2. unfold emit. cbn [trace].
    rewrite fetch_page_state. cbn [trace]. rewrite Htr.
    exists (evs ++ [EvMySQL (page_sql cfg tableName totalRows L1);
                    EvPage (offset L1) (page_limit cfg totalRows L1) (length rows)]
              ++ evs2 ++ evs3).
    split; [by rewrite <- !app_assoc|].
    observe. rewrite Hp2, Hp3, Hsz3. cbn. split_and!; [lia|lia|].
    apply Forall_app. split; [done|]. apply Forall_singleton.
    unfold page_within; cbn. lia.
  - split; [done|]. exists []. rewrite app_nil_r. observe.
    split_and!; [done|lia|lia|done].
Qed.

End Bound.

(** C10. With a positive batch size [copyTableDataStream] ends, and whatever
    the two servers do (the source may grow, shrink or fail between two
    fetches, inserts may fail or not): at every point of the run the rows
    copied so far are at most [totalRows], every page asked for lies within
    the first [totalRows] rows and returns no more rows than its limit, and a
    returned value is the number of rows copied, at most [totalRows]. *)
Theorem copied_rows_bounded env cfg tableName totalRows columns st fuel :
  0 < BATCH_SIZE cfg -> totalRows <= fuel ->
  exists res st' evs,
    copyTableDataStream env cfg fuel tableName totalRows columns st
      = Some (res, st') /\
    trace st' = trace st ++ evs /\
    (forall n, rows_inserted (take n evs) <= totalRows) /\
    Forall (page_within totalRows) (pages evs) /\
    (forall n, res = Returned n -> n = rows_inserted evs /\ n <= totalRows).
Proof.
  intros HB Hfuel. unfold copyTableDataStream, stream_run.
  destruct (date_now env st) as [startTime st0] eqn:Hnow.
  assert (trace st0 = trace st) as Htr0 by (by injection Hnow as _ <-).
  match goal with
  | |- context [page_loop _ _ _ _ _ _ _ ?L0 _] => set (L0' := L0)
  end.
  destruct (page_loop_total env cfg tableName totalRows columns startTime HB
              fuel L0' st0) as [[[r L] st1] Hrun]; [cbn; lia|].
  rewrite Hrun.
  apply page_loop_bound in Hrun as (Ho & evs & Htr & Ht & Hle & Hp); [|cbn; lia].
  cbn in Ht, Hle.
  assert (forall n, rows_inserted (take n evs) <= totalRows) as Hpre.
  { intros n. pose proof (rows_inserted_take_le n evs). lia. }
  destruct r as [[]|].
  - cbn. do 3 eexists. split; [reflexivity|]. cbn. rewrite Htr, Htr0.
    split_and!; [done|done|done|]. intros n [= <-]. lia.
  - do 3 eexists. split; [reflexivity|]. rewrite Htr, Htr0.
    split_and!; done.
Qed.

Lemma copied_rows_bounded_witness :
  exists res st' evs,
    copyTableDataStream (steady_env [id_column] [id_row 1; id_row 2; id_row 3] 0)
      CONFIG 2 "users" 2 [id_column] empty_users = Some (res, st') /\
    trace st' = trace empty_users ++ evs /\
    (forall n, rows_inserted (take n evs) <= 2) /\
    Forall (page_within 2) (pages evs) /\
    (forall n, res = Returned n -> n = rows_inserted evs /\ n <= 2).
Proof.
  apply (copied_rows_bounded
           (steady_env [id_column] [id_row 1; id_row 2; id_row 3] 0)
           CONFIG "users" 2 [id_column] empty_users 2).
  - vm_compute. lia.
  - lia.
Defined.

Section Outcomes.

Variable env : Env.
Variable cfg : Config.
Variable tableName : string.
Variable totalRows : nat.
Variable columns : list Column.
Variable startTime : Z.

Abbreviation retry := (insert_with_retry env cfg tableName totalRows columns startTime).
Abbreviation batches := (batch_loop env cfg tableName totalRows columns startTime).
Abbreviation paging' := (page_loop env cfg tableName totalRows columns startTime).
Abbreviation fetch' := (fetch_page env cfg tableName totalRows).

(** *** A server that accepts every insert *)

Lemma retry_first_accepted k r batch L st :
  Forall (valid_row columns) batch ->
  pg_rejects env (pg_sent st) (batchInsertSQL tableName columns batch) = false ->
  is_Some (pg_tables st !! tableName) ->
  let res := retry (S k) r batch L st in
  totalInserted res.1 = totalInserted L + length batch /\
  is_Some (pg_tables res.2 !! tableName) /\
  exists evs, trace res.2 = trace st ++ evs /\
    batch_sizes evs = [length batch] /\ abandoned evs = [] /\ delays evs = [].
Proof.
  intros Hbind Hacc [old Hold]. apply batch_values_valid in Hbind.
  rewrite (retry_accepted _ _ _ _ _ _ _ _ _ _ _ _ _ Hbind Hacc Hold).
  match goal with |- context [after_insert _ _ _ batch L ?s] =>
    destruct (after_insert_spec env totalRows startTime batch L s)
      as (Ht & _ & _ & Hpg & _ & evs & Htr & Hsz & _ & Hd & Ha)
  end.
  cbn zeta in *. rewrite Ht, Hpg, Htr. cbn. rewrite lookup_insert_eq.
  split_and!; [done|done|]. eexists. rewrite <- app_assoc.
  split; [reflexivity|]. observe. by rewrite Hsz, Hd, Ha.
Qed.

Lemma batch_loop_all_inserted fuel rows L st L' st' :
  Forall (valid_row columns) rows ->
  (forall n sql, pg_rejects env n sql = false) ->
  0 < MAX_RETRIES cfg ->
  is_Some (pg_tables st !! tableName) ->
  batches fuel 0 rows L st = Some (L', st') ->
  totalInserted L' = totalInserted L + length rows /\
  is_Some (pg_tables st' !! tableName) /\
  exists evs, trace st' = trace st ++ evs /\
    rows_inserted evs = length rows /\ abandoned evs = [] /\ delays evs = [].
Proof.
  intros Hvalid Hacc HM Hpg Hrun.
  set (I := fun (i : nat) (L1 : Locals) (st1 : State) =>
    is_Some (pg_tables st1 !! tableName) /\
    exists evs, trace st1 = trace st ++ evs /\
      totalInserted L1 = totalInserted L + Nat.min i (length rows) /\
      rows_inserted evs = Nat.min i (length rows) /\
      abandoned evs = [] /\ delays evs = []).
  destruct (batch_loop_rule env cfg tableName totalRows columns startTime I rows)
    with (fuel := fuel) (i := 0) (L := L) (st := st) (L' := L') (st' := st')
    as (j & Hj & Hpg' & evs & Htr & Ht & Hsz & Ha & Hd); [| |done|].
  - intros i L1 st1 Hi (Hpg1 & evs & Htr & Ht & Hsz & Ha & Hd).
    destruct (MAX_RETRIES cfg) as [|k]; [lia|].
    destruct (retry_first_accepted k 0 (slice rows i (i + BATCH_SIZE cfg))
                (next_batch L1) st1
                (Forall_take _ _ _ (Forall_drop _ _ _ Hvalid)) (Hacc _ _) Hpg1)
      as (Ht' & Hpg' & evs' & Htr' & Hsz' & Ha' & Hd').
    unfold I. cbn zeta in *. rewrite Ht', Htr', Htr. cbn [next_batch totalInserted].
    rewrite length_slice. split; [done|].
    exists (evs ++ evs'). rewrite app_assoc. split; [done|].
    observe. rewrite Hsz', Ha, Ha', Hd, Hd'. cbn. rewrite length_slice.
    split_and!; [lia|lia|done|done].
  - unfold I. split; [done|]. exists []. rewrite app_nil_r. observe.
    split_and!; [done|lia|done|done|done].
  - split_and!; [lia|done|]. exists evs. split_and!; [done|lia|done|done].
Qed.

(** *** A server that refuses every insert *)

Hypothesis Hrefuse :
  forall n sql, String.prefix "INSERT" sql = true -> pg_rejects env n sql = true.

Lemma retry_all_refused k r batch L st :
  0 < k -> r + k = MAX_RETRIES cfg ->
  let res := retry k r batch L st in
  res.1 = L /\ pg_tables res.2 = pg_tables st /\
  exists evs, trace res.2 = trace st ++ evs /\
    batch_sizes evs = [] /\ abandoned evs = [batchCount L] /\
    delays evs = map (fun attempt => 1000 * attempt) (seq (S r) (k - 1)).
Proof.
  revert r st; induction k as [|k IH]; intros r st Hk Hsum; [lia|].
  assert (Hfail : send_fails env tableName columns batch st).
  { unfold send_fails. destruct (batch_values columns batch); [|by left].
    right; left. apply Hrefuse, insert_sql_prefix. }
  rewrite (retry_refused _ _ _ _ _ _ _ _ _ _ _ Hfail).
  destruct (send_batch_failed _ _ _ _ _ Hfail)
    as (_ & Hpg0 & _ & evs0 & Htr0 & Hsz0 & _ & Hd0 & Ha0 & _).
  cbn zeta. destruct (Nat.leb_spec (MAX_RETRIES cfg) (S r)) as [Hle|Hgt].
  - assert (k = 0) as -> by lia. cbn. rewrite Hpg0, Htr0.
    split_and!; [done|done|].
    eexists. rewrite <- !app_assoc. split; [reflexivity|]. observe.
    by rewrite Hsz0, Hd0, Ha0.
  - match goal with |- context [retry k (S r) batch L ?s] =>
      destruct (IH (S r) s) as (HL & Hpg & evs & Htr & Hsz & Ha & Hd); [lia|lia|]
    end.
    cbn zeta in *. rewrite HL, Hpg, Htr. cbn. rewrite Hpg0, Htr0.
    split_and!; [done|done|].
    eexists. rewrite <- !app_assoc. split; [reflexivity|]. observe.
    rewrite Hsz0, Hd0, Ha0, Hsz, Ha, Hd. cbn. split_and!; [done|done|].
    rewrite Nat.sub_0_r. destruct k; [lia|]. cbn. by rewrite Nat.sub_0_r.
Qed.

Lemma batch_loop_all_abandoned fuel rows L st L' st' :
  0 < MAX_RETRIES cfg ->
  rows <> [] ->
  batches fuel 0 rows L st = Some (L', st') ->
  totalInserted L' = totalInserted L /\ pg_tables st' = pg_tables st /\
  batchCount L < batchCount L' /\
  exists evs, trace st' = trace st ++ evs /\ batch_sizes evs = [] /\
    abandoned evs = seq (S (batchCount L)) (batchCount L' - batchCount L).
Proof.
  intros HM Hne Hrun.
  set (I := fun (i : nat) (L1 : Locals) (st1 : State) =>
    totalInserted L1 = totalInserted L /\ pg_tables st1 = pg_tables st /\
    batchCount L <= batchCount L1 /\ (0 < i -> batchCount L < batchCount L1) /\
    exists evs, trace st1 = trace st ++ evs /\ batch_sizes evs = [] /\
      abandoned evs = seq (S (batchCount L)) (batchCount L1 - batchCount L)).
  destruct (batch_loop_rule env cfg tableName totalRows columns startTime I rows)
    with (fuel := fuel) (i := 0) (L := L) (st := st) (L' := L') (st' := st')
    as (j & Hj & Ht & Hpg & Hbc & Hpos & evs & Htr & Hsz & Ha); [| |done|].
  - intros i L1 st1 Hi (Ht & Hpg & Hbc & Hpos & evs & Htr & Hsz & Ha).
    destruct (retry_all_refused (MAX_RETRIES cfg) 0
                (slice rows i (i + BATCH_SIZE cfg)) (next_batch L1) st1)
      as (HL & Hpg' & evs' & Htr' & Hsz' & Ha' & _); [lia|lia|].
    unfold I. cbn zeta in *. rewrite HL, Hpg', Htr', Htr. cbn.
    split_and!; [done|done|lia|lia|].
    exists (evs ++ evs'). rewrite app_assoc. split; [done|].
    observe. rewrite Hsz, Hsz', Ha, Ha'. cbn. split; [done|].
    replace (S (batchCount L1) - batchCount L)
      with (S (batchCount L1 - batchCount L)) by lia.
    rewrite seq_S. do 2 f_equal. lia.
  - unfold I. split_and!; [done|done|lia|lia|]. exists []. rewrite app_nil_r.
    rewrite Nat.sub_diag. by observe.
  - assert (0 < length rows) by (destruct rows; [done|cbn; lia]).
    split_and!; [done|done|apply Hpos; lia|]. by exists evs.
Qed.

End Outcomes.

Section SteadySource.

Variable env : Env.
Variable cfg : Config.
Variable tableName : string.
Variable totalRows : nat.
Variable columns : list Column.
Variable startTime : Z.

Abbreviation paging := (page_loop env cfg tableName totalRows columns startTime).
Abbreviation fetch := (fetch_page env cfg tableName totalRows).
Abbreviation limit := (page_limit cfg totalRows).

(** The source can always be read and always holds [totalRows] rows or
    more. *)
Hypothesis Hsource :
  forall k, exists table,
    src_rows env k tableName = Some table /\ totalRows <= length table.
Hypothesis Hlimit : 0 < STREAM_LIMIT cfg.

(** Then every page comes back full. *)
Lemma fetch_page_full L st :
  offset L < totalRows ->
  exists rows, (fetch L st).1 = Some rows /\
    length rows = limit L /\ 0 < limit L /\ limit L <= totalRows - offset L.
Proof.
  intros Hlt. destruct (Hsource (src_reads st)) as (table & Hsrc & Hlen).
  exists (take (limit L) (drop (offset L) table)).
  unfold fetch_page, mysql_execute. cbn. rewrite Hsrc. cbn.
  rewrite length_take, length_drop. unfold page_limit. split_and!; [done|lia..].
Qed.

Lemma page_loop_all_inserted fuel L st r L' st' :
  (forall k table,
     src_rows env k tableName = Some table -> Forall (valid_row columns) table) ->
  (forall n sql, pg_rejects env n sql = false) ->
  0 < MAX_RETRIES cfg ->
  is_Some (pg_tables st !! tableName) ->
  offset L <= totalRows ->
  paging fuel L st = Some (r, L', st') ->
  r = Returned tt /\ offset L' = totalRows /\
  totalInserted L' = totalInserted L + (totalRows - offset L) /\
  exists evs, trace st' = trace st ++ evs /\
    rows_inserted evs = totalRows - offset L /\
    abandoned evs = [] /\ delays evs = [].
Proof.
  intros Hvalid Hacc HM Hpg Hoff.
  set (J := fun (L1 : Locals) (st1 : State) =>
    (offset L <= offset L1 /\ offset L1 <= totalRows) /\
    is_Some (pg_tables st1 !! tableName) /\
    exists evs, trace st1 = trace st ++ evs /\
      totalInserted L1 = totalInserted L + (offset L1 - offset L) /\
      rows_inserted evs = offset L1 - offset L /\
      abandoned evs = [] /\ delays evs = []).
  intros Hrun.
  destruct (page_loop_rule env cfg tableName totalRows columns startTime J
              (fun r L1 st1 => r = Returned tt /\ offset L1 = totalRows /\ J L1 st1))
    with (fuel := fuel) (L := L) (st := st) (r := r) (L' := L') (st' := st')
    as (Hr & Ho & _ & _ & evs & Htr & Ht & Hsz & Ha & Hd); [| | | | |done|].
  - intros L1 st1 HJ Hge. split_and!; [done| |done]. destruct HJ as ([_ ?] & _). lia.
  - intros L1 st1 _ Hlt Hf.
    destruct (fetch_page_full L1 st1 Hlt) as (rows & Hf' & _). congruence.
  - intros L1 st1 _ Hlt Hf.
    destruct (fetch_page_full L1 st1 Hlt) as (rows & Hf' & Hlen & Hpos & _).
    rewrite Hf in Hf'. injection Hf' as <-. cbn in Hlen. lia.
  - intros L1 st1 rows fuel1 L2 st2 ([Hlo Hhi] & Hpg1 & evs & Htr & Ht & Hsz & Ha & Hd)
      Hlt Hf Hne Hb.
    assert (Hrows : Forall (valid_row columns) rows).
    { destruct (fetch_page_rows _ _ _ _ _ _ _ Hf) as (table & Hsrc & ->).
      apply Forall_take, Forall_drop, (Hvalid _ _ Hsrc). }
    apply fetch_page_length in Hf as [Hlen Hlim].
    pose proof Hb as Hframe.
    apply batch_loop_frame in Hframe as (Ho2 & _).
    apply batch_loop_all_inserted in Hb
      as (Ht2 & Hpg2 & evs2 & Htr2 & Hsz2 & Ha2 & Hd2); [|done|done|done|done].
    destruct (checkpoint_spec cfg (advance_offset (length rows) L2) st2)
      as (Hpg3 & _ & evs3 & Htr3 & Hsz3 & _ & Ha3 & Hd3).
    unfold J. rewrite Hpg3, Htr3, Htr2. unfold emit. cbn [trace].
    rewrite fetch_page_state. cbn [trace]. rewrite Htr. cbn.
    split_and!; [lia|lia|done|].
    exists (evs ++ [EvMySQL (page_sql cfg tableName totalRows L1);
                    EvPage (offset L1) (limit L1) (length rows)]
              ++ evs2 ++ evs3).
    split; [by rewrite <- !app_assoc|].
    observe. rewrite Hsz3, Ha, Ha2, Ha3, Hd, Hd2, Hd3. cbn.
    split_and!; [lia|lia|done|done].
  - unfold J. split_and!; [lia|done|done|]. exists []. rewrite app_nil_r.
    observe. rewrite Nat.sub_diag. split_and!; [done|lia|done|done|done].
  - split_and!; [done|done|lia|]. exists evs. split_and!; [done|lia|done|done].
Qed.

Lemma page_loop_all_abandoned fuel L st r L' st' :
  (forall n sql, String.prefix "INSERT" sql = true -> pg_rejects env n sql = true) ->
  0 < MAX_RETRIES cfg ->
  offset L <= totalRows ->
  paging fuel L st = Some (r, L', st') ->
  r = Returned tt /\ offset L' = totalRows /\
  totalInserted L' = totalInserted L /\ pg_tables st' = pg_tables st /\
  (offset L < totalRows -> batchCount L < batchCount L') /\
  exists evs, trace st' = trace st ++ evs /\ batch_sizes evs = [] /\
    abandoned evs = seq (S (batchCount L)) (batchCount L' - batchCount L).
Proof.
  intros Href HM Hoff.
  set (J := fun (L1 : Locals) (st1 : State) =>
    (offset L <= offset L1 /\ offset L1 <= totalRows) /\
    totalInserted L1 = totalInserted L /\ pg_tables st1 = pg_tables st /\
    batchCount L <= batchCount L1 /\
    (offset L < offset L1 -> batchCount L < batchCount L1) /\
    exists evs, trace st1 = trace st ++ evs /\ batch_sizes evs = [] /\
      abandoned evs = seq (S (batchCount L)) (batchCount L1 - batchCount L)).
  intros Hrun.
  destruct (page_loop_rule env cfg tableName totalRows columns startTime J
              (fun r L1 st1 => r = Returned tt /\ offset L1 = totalRows /\ J L1 st1))
    with (fuel := fuel) (L := L) (st := st) (r := r) (L' := L') (st' := st')
    as (Hr & Ho & _ & Ht & Hpg & Hbc & Hpos & evs & Htr & Hsz & Ha);
    [| | | | |done|].
  - intros L1 st1 HJ Hge. split_and!; [done| |done]. destruct HJ as ([_ ?] & _). lia.
  - intros L1 st1 _ Hlt Hf.
    destruct (fetch_page_full L1 st1 Hlt) as (rows & Hf' & _). congruence.
  - intros L1 st1 _ Hlt Hf.
    destruct (fetch_page_full L1 st1 Hlt) as (rows & Hf' & Hlen & Hpos & _).
    rewrite Hf in Hf'. injection Hf' as <-. cbn in Hlen. lia.
  - intros L1 st1 rows fuel1 L2 st2
      ([Hlo Hhi] & Ht & Hpg & Hbc & Hpos & evs & Htr & Hsz & Ha) Hlt Hf Hne Hb.
    apply fetch_page_length in Hf as [Hlen Hlim].
    pose proof Hb as Hframe.
    apply batch_loop_frame in Hframe as (Ho2 & _).
    apply batch_loop_all_abandoned in Hb
      as (Ht2 & Hpg2 & Hbc2 & evs2 & Htr2 & Hsz2 & Ha2); [|done|done|done].
    destruct (checkpoint_spec cfg (advance_offset (length rows) L2) st2)
      as (Hpg3 & _ & evs3 & Htr3 & Hsz3 & _ & Ha3 & _).
    unfold J. rewrite Hpg3, Hpg2, Htr3, Htr2. unfold emit. cbn [trace].
    rewrite fetch_page_state. cbn [trace]. rewrite Htr. cbn.
    split_and!; [lia|lia|lia|done|lia|lia|].
    exists (evs ++ [EvMySQL (page_sql cfg tableName totalRows L1);
                    EvPage (offset L1) (limit L1) (length rows)]
              ++ evs2 ++ evs3).
    split; [by rewrite <- !app_assoc|].
    observe. rewrite Hsz, Hsz2, Hsz3, Ha, Ha2, Ha3. cbn. split; [done|].
    rewrite app_nil_r.
    replace (batchCount L2 - batchCount L)
      with ((batchCount L1 - batchCount L) + (batchCount L2 - batchCount L1)) by lia.
    rewrite seq_app. do 2 f_equal. lia.
  - unfold J. split_and!; [lia|done|done|done|lia|lia|]. exists [].
    rewrite app_nil_r, Nat.sub_diag. by observe.
  - split_and!; [done|done|done|done| |by exists evs]. intros. apply Hpos. lia.
Qed.

End SteadySource.

(** ** The claims about the transfer *)

(** C3. With [MAX_RETRIES = 3], a batch whose values bind (none is an
    Invalid Date, so that an insert is sent at every attempt) and whose insert
    is refused twice and accepted the third time is counted as copied: its
    rows are added to [totalInserted] and its bound values stored in the
    target, the batch is not given up, and exactly two delays pass, of
    1000 * 1 and 1000 * 2 milliseconds. *)
Theorem retry_third_attempt_succeeds
    env cfg tableName totalRows columns startTime batch L st old rows :
  MAX_RETRIES cfg = 3 ->
  batch_values columns batch = Some rows ->
  pg_tables st !! tableName = Some old ->
  pg_rejects env (pg_sent st) (batchInsertSQL tableName columns batch) = true ->
  pg_rejects env (S (pg_sent st)) (batchInsertSQL tableName columns batch) = true ->
  pg_rejects env (S (S (pg_sent st))) (batchInsertSQL tableName columns batch) = false ->
  let res := insert_with_retry env cfg tableName totalRows columns startTime
               (MAX_RETRIES cfg) 0 batch L st in
  totalInserted res.1 = totalInserted L + length batch /\
  pg_tables res.2 !! tableName = Some (old ++ rows) /\
  exists evs, trace res.2 = trace st ++ evs /\
    batch_sizes evs = [length batch] /\ abandoned evs = [] /\
    delays evs = [1000 * 1; 1000 * 2].
Proof.
  intros HM Hbind Hold H1 H2 H3.
  replace (insert_with_retry env cfg tableName totalRows columns startTime
             (MAX_RETRIES cfg))
    with (insert_with_retry env cfg tableName totalRows columns startTime 3)
    by (by rewrite HM).
  rewrite retry_refused by (right; left; exact H1).
  rewrite (send_batch_rejected _ _ _ _ _ rows)
    by (first [exact Hbind | left; exact H1]).
  rewrite HM. cbn zeta. cbn [Nat.leb].
  rewrite retry_refused by (right; left; exact H2).
  rewrite (send_batch_rejected _ _ _ _ _ rows)
    by (first [exact Hbind | left; exact H2]).
  rewrite HM. cbn zeta. cbn [Nat.leb].
  rewrite (retry_accepted _ _ _ _ _ _ _ _ _ _ _ rows old)
    by (first [exact Hbind | exact H3 | exact Hold]).
  match goal with |- context [after_insert _ _ _ batch L ?s] =>
    destruct (after_insert_spec env totalRows startTime batch L s)
      as (Ht & _ & _ & Hpg & _ & evs & Htr & Hsz & _ & Hd & Ha)
  end.
  cbn zeta in *. rewrite Ht, Hpg, Htr. cbn. rewrite lookup_insert_eq.
  split_and!; [done|done|]. eexists. rewrite <- !app_assoc.
  split; [reflexivity|]. observe. by rewrite Hsz, Hd, Ha.
Qed.

Lemma retry_third_attempt_succeeds_witness :
  let res := insert_with_retry (flaky_env [id_column] twelve_rows) CONFIG "t1" 12
               [id_column] 0 (MAX_RETRIES CONFIG) 0 [id_row 1; id_row 2]
               {| totalInserted := 0; batchCount := 1; offset := 0;
                  lastProgressTime := 0 |} empty_t1 in
  totalInserted res.1 = 0 + 2 /\
  pg_tables res.2 !! "t1" = Some ([] ++ [[VNum 1]; [VNum 2]]) /\
  exists evs, trace res.2 = trace empty_t1 ++ evs /\
    batch_sizes evs = [2] /\ abandoned evs = [] /\
    delays evs = [1000 * 1; 1000 * 2].
Proof.
  exact (retry_third_attempt_succeeds (flaky_env [id_column] twelve_rows) CONFIG
           "t1" 12 [id_column] 0 [id_row 1; id_row 2]
           {| totalInserted := 0; batchCount := 1; offset := 0;
              lastProgressTime := 0 |} empty_t1 [] [[VNum 1]; [VNum 2]]
           eq_refl eq_refl eq_refl eq_refl eq_refl eq_refl).
Defined.

Lemma stream_run_total env cfg fuel tableName totalRows columns st :
  0 < BATCH_SIZE cfg -> totalRows <= fuel ->
  exists r L st',
    stream_run env cfg fuel tableName totalRows columns st = Some (r, L, st') /\
    page_loop env cfg tableName totalRows columns (now env (ticks st)) fuel
      {| totalInserted := 0; batchCount := 0; offset := 0;
         lastProgressTime := now env (ticks st) |} (date_now env st).2
      = Some (r, L, st').
Proof.
  intros HB Hfuel. unfold stream_run. cbn.
  match goal with |- context [page_loop _ _ _ _ _ ?t fuel ?L0 ?s] =>
    destruct (page_loop_total env cfg tableName totalRows columns t HB fuel L0 s)
      as [[[r L] st'] Hrun]; [cbn; lia|]
  end.
  exists r, L, st'. by rewrite Hrun.
Qed.

Lemma transfer_all_inserted env cfg tableName R columns st fuel :
  0 < BATCH_SIZE cfg -> 0 < STREAM_LIMIT cfg -> 0 < MAX_RETRIES cfg ->
  (forall k, exists table, src_rows env k tableName = Some table /\ R <= length table) ->
  (forall k table,
     src_rows env k tableName = Some table -> Forall (valid_row columns) table) ->
  (forall n sql, pg_rejects env n sql = false) ->
  is_Some (pg_tables st !! tableName) ->
  R <= fuel ->
  exists st' evs,
    copyTableDataStream env cfg fuel tableName R columns st = Some (Returned R, st') /\
    trace st' = trace st ++ evs /\
    sum_list (batch_sizes evs) = R /\ abandoned evs = [] /\ delays evs = [].
Proof.
  intros HB HP HM Hsrc Hvalid Hacc Hpg Hfuel.
  destruct (stream_run_total env cfg fuel tableName R columns st HB Hfuel)
    as (r & L & st' & Hrun & Hloop).
  unfold copyTableDataStream. rewrite Hrun.
  apply page_loop_all_inserted in Hloop
    as (-> & _ & Ht & evs & Htr & Hsz & Ha & Hd); [|done..|cbn; lia].
  cbn in Ht, Htr, Hsz. rewrite Nat.sub_0_r in *. cbn.
  eexists _, evs. rewrite Ht. split_and!; done.
Qed.

(** C2. Twelve rows, batches of five, pages of ten, no failure: two pages are
    fetched, of 10 rows at offset 0 and of 2 rows at offset 10, three batches
    of 5, 5 and 2 rows are inserted, and 12 is returned.  In general, when the
    source holds [R] rows (or more) whenever it is read and nothing fails
    inside the try block of a batch, that is, no value read is an Invalid
    Date (whose [toISOString] throws before the insert is sent) and the
    server accepts every insert, the transfer returns exactly [R], the sum of
    the sizes of the batches inserted, and gives no batch up. *)
Theorem transfer_copies_every_row :
  (exists st',
     copyTableDataStream (steady_env [id_column] twelve_rows 0) small_config 12
       "t1" 12 [id_column] empty_t1 = Some (Returned 12, st') /\
     pages (trace st') = [(0, 10, 10); (10, 2, 2)] /\
     batch_sizes (trace st') = [5; 5; 2] /\
     length <$> pg_tables st' !! "t1" = Some 12) /\
  (forall env cfg tableName R columns st fuel,
     0 < BATCH_SIZE cfg -> 0 < STREAM_LIMIT cfg -> 0 < MAX_RETRIES cfg ->
     (forall k, exists table,
        src_rows env k tableName = Some table /\ R <= length table) ->
     (forall k table,
        src_rows env k tableName = Some table ->
        Forall (valid_row columns) table) ->
     (forall n sql, pg_rejects env n sql = false) ->
     is_Some (pg_tables st !! tableName) ->
     R <= fuel ->
     exists st' evs,
       copyTableDataStream env cfg fuel tableName R columns st
         = Some (Returned R, st') /\
       trace st' = trace st ++ evs /\
       sum_list (batch_sizes evs) = R /\ abandoned evs = []).
Proof.
  split.
  - eexists. split; [vm_compute; reflexivity|]. by vm_compute.
  - intros env cfg tableName R columns st fuel HB HP HM Hsrc Hvalid Hacc Hpg Hfuel.
    destruct (transfer_all_inserted env cfg tableName R columns st fuel)
      as (st' & evs & Hrun & Htr & Hsz & Ha & _); try done.
    by exists st', evs.
Qed.

Lemma transfer_copies_every_row_witness :
  exists st' evs,
    copyTableDataStream (steady_env [id_column] twelve_rows 0) CONFIG 12
      "t1" 12 [id_column] empty_t1 = Some (Returned 12, st') /\
    trace st' = trace empty_t1 ++ evs /\
    sum_list (batch_sizes evs) = 12 /\ abandoned evs = [].
Proof.
  apply (proj2 transfer_copies_every_row
           (steady_env [id_column] twelve_rows 0) CONFIG "t1" 12 [id_column]
           empty_t1 12).
  - vm_compute; lia.
  - vm_compute; lia.
  - vm_compute; lia.
  - intros k. exists twelve_rows. split; [reflexivity|]. vm_compute; lia.
  - intros k table [= <-]. repeat constructor; by vm_compute.
  - reflexivity.
  - by eexists.
  - lia.
Defined.

Lemma transfer_all_abandoned env cfg tableName R columns st fuel :
  0 < BATCH_SIZE cfg -> 0 < STREAM_LIMIT cfg -> 0 < MAX_RETRIES cfg ->
  (forall k, exists table, src_rows env k tableName = Some table /\ R <= length table) ->
  (forall n sql, String.prefix "INSERT" sql = true -> pg_rejects env n sql = true) ->
  R <= fuel ->
  exists L st' evs,
    stream_run env cfg fuel tableName R columns st = Some (Returned tt, L, st') /\
    copyTableDataStream env cfg fuel tableName R columns st
      = Some (Returned 0, (date_now env st').2) /\
    offset L = R /\ (0 < R -> 0 < batchCount L) /\
    pg_tables st' = pg_tables st /\
    trace st' = trace st ++ evs /\
    batch_sizes evs = [] /\ abandoned evs = seq 1 (batchCount L).
Proof.
  intros HB HP HM Hsrc Href Hfuel.
  destruct (stream_run_total env cfg fuel tableName R columns st HB Hfuel)
    as (r & L & st' & Hrun & Hloop).
  unfold copyTableDataStream. rewrite Hrun.
  apply page_loop_all_abandoned in Hloop
    as (-> & Ho & Ht & Hpg & Hpos & evs & Htr & Hsz & Ha); [|done..|cbn; lia].
  cbn in Ht, Hpg, Hpos, Htr, Ha. rewrite Nat.sub_0_r in Ha.
  exists L, st', evs. cbn. rewrite Ht. split_and!; done.
Qed.

Lemma createSQL_not_insert tableName columns :
  String.prefix "INSERT" (createSQL tableName columns) = false.
Proof. unfold createSQL. by destruct (List.find _ columns). Qed.

Lemma copyTable_all_abandoned env cfg rows columns fuel st :
  0 < BATCH_SIZE cfg -> 0 < STREAM_LIMIT cfg -> 0 < MAX_RETRIES cfg ->
  rows <> [] ->
  src_columns env "users" = Some columns ->
  (forall k, src_rows env k "users" = Some rows) ->
  (forall n sql, pg_rejects env n sql = String.prefix "INSERT" sql) ->
  length rows <= fuel ->
  exists st',
    copyTable env cfg fuel st =
      Some (Returned {| copiedRows := 0; sourceRows := length rows;
                        postgresCount := Some 0; countsMatch := false;
                        verdict := PartialSuccess |}, st').
Proof.
  intros HB HP HM Hne Hcols Hrows Hrej Hfuel.
  unfold copyTable. cbn zeta. rewrite Hcols.
  unfold mysql_execute at 1. rewrite Hrows. cbn [fmap option_fmap option_map].
  match goal with |- context [createPostgreSQLTable env "users" columns ?s] =>
    destruct (createPostgreSQLTable_fresh env "users" columns s)
      as (st2 & Hcreate & Hpg2 & _);
      [rewrite Hrej; reflexivity | rewrite Hrej; apply createSQL_not_insert |];
      rewrite Hcreate
  end.
  match goal with |- context [copyTableDataStream env cfg fuel "users" _ columns ?s] =>
    destruct (transfer_all_abandoned env cfg "users" (length rows) columns s fuel)
      as (L & st3 & evs & _ & Hcopy & _ & _ & Hpg3 & _); try done;
      [by intros k; exists rows | by intros n sql Hsql; rewrite Hrej |];
      rewrite Hcopy
  end.
  unfold pg_query. rewrite Hrej. cbn in Hpg2, Hpg3.
  change (String.prefix "INSERT" (count_sql "users")) with false. cbv iota.
  unfold sem_count. cbn [pg_tables date_now snd]. rewrite Hpg3, Hpg2.
  rewrite lookup_insert_eq. cbn [fmap option_fmap option_map fst length].
  destruct rows as [|row rows]; [done|].
  eexists. reflexivity.
Qed.

(** C4. When the server refuses every INSERT, each batch is tried
    [MAX_RETRIES] times and given up, the loop goes on to the end of the table
    (the offset reaches [totalRows], the batches given up are all the batches
    1, 2, ... counted), nothing is stored, and the transfer returns 0 without
    throwing.  [copyTable] then still prints its summary and classifies the run
    of a non-empty table as PARTIAL SUCCESS, with 0 rows copied and 0 rows
    counted in the target. *)
Theorem all_batches_abandoned_partial_success :
  (forall env cfg tableName R columns st fuel,
     0 < BATCH_SIZE cfg -> 0 < STREAM_LIMIT cfg -> 0 < MAX_RETRIES cfg ->
     (forall k, exists table,
        src_rows env k tableName = Some table /\ R <= length table) ->
     (forall n sql,
        String.prefix "INSERT" sql = true -> pg_rejects env n sql = true) ->
     R <= fuel ->
     exists L st' evs,
       stream_run env cfg fuel tableName R columns st = Some (Returned tt, L, st') /\
       copyTableDataStream env cfg fuel tableName R columns st
         = Some (Returned 0, (date_now env st').2) /\
       offset L = R /\ (0 < R -> 0 < batchCount L) /\
       pg_tables st' = pg_tables st /\
       trace st' = trace st ++ evs /\
       batch_sizes evs = [] /\ abandoned evs = seq 1 (batchCount L)) /\
  (forall env cfg rows columns fuel st,
     0 < BATCH_SIZE cfg -> 0 < STREAM_LIMIT cfg -> 0 < MAX_RETRIES cfg ->
     rows <> [] ->
     src_columns env "users" = Some columns ->
     (forall k, src_rows env k "users" = Some rows) ->
     (forall n sql, pg_rejects env n sql = String.prefix "INSERT" sql) ->
     length rows <= fuel ->
     exists st',
       copyTable env cfg fuel st =
         Some (Returned {| copiedRows := 0; sourceRows := length rows;
                           postgresCount := Some 0; countsMatch := false;
                           verdict := PartialSuccess |}, st')).
Proof.
  split.
  - intros env cfg tableName R columns st fuel HB HP HM Hsrc Href Hfuel.
    by apply transfer_all_abandoned.
  - intros env cfg rows columns fuel st HB HP HM Hne Hcols Hrows Hrej Hfuel.
    by apply (copyTable_all_abandoned env cfg rows columns).
Qed.

Lemma all_batches_abandoned_partial_success_witness :
  (exists L st' evs,
     stream_run (refusing_env [id_column] twelve_rows) small_config 12 "t1" 12
       [id_column] empty_t1 = Some (Returned tt, L, st') /\
     copyTableDataStream (refusing_env [id_column] twelve_rows) small_config 12
       "t1" 12 [id_column] empty_t1
       = Some (Returned 0, (date_now (refusing_env [id_column] twelve_rows) st').2) /\
     offset L = 12 /\ (0 < 12 -> 0 < batchCount L) /\
     pg_tables st' = pg_tables empty_t1 /\
     trace st' = trace empty_t1 ++ evs /\
     batch_sizes evs = [] /\ abandoned evs = seq 1 (batchCount L)) /\
  (exists st',
     copyTable (refusing_env [id_column] twelve_rows) CONFIG 12 initial_state =
       Some (Returned {| copiedRows := 0; sourceRows := length twelve_rows;
                         postgresCount := Some 0; countsMatch := false;
                         verdict := PartialSuccess |}, st')).
Proof.
  split.
  - apply (proj1 all_batches_abandoned_partial_success
             (refusing_env [id_column] twelve_rows) small_config "t1" 12
             [id_column] empty_t1 12).
    + vm_compute; lia.
    + vm_compute; lia.
    + vm_compute; lia.
    + intros k. exists twelve_rows. split; [reflexivity|]. vm_compute; lia.
    + intros n sql Hsql. exact Hsql.
    + lia.
  - apply (proj2 all_batches_abandoned_partial_success
             (refusing_env [id_column] twelve_rows) CONFIG twelve_rows
             [id_column] 12 initial_state).
    + vm_compute; lia.
    + vm_compute; lia.
    + vm_compute; lia.
    + discriminate.
    + reflexivity.
    + reflexivity.
    + reflexivity.
    + vm_compute; lia.
Defined.

(** * Further properties *)

(** ** Durations *)

Lemma centiseconds_shown r :
  (0 <= r < 1000)%Z ->
  String.substring 0 2 (padStart 3 "0" (of_Z r)) = two_digits (r / 10).
Proof.
  intros Hr.
  assert (forallb (fun n =>
            String.eqb (String.substring 0 2 (padStart 3 "0" (of_Z (Z.of_nat n))))
                       (two_digits (Z.of_nat n / 10)))
            (seq 0 1000) = true) as Hall by (vm_compute; reflexivity).
  rewrite forallb_forall in Hall.
  specialize (Hall (Z.to_nat r)).
  rewrite Z2Nat.id in Hall by lia.
  apply String.eqb_eq, Hall, in_seq. lia.
Qed.

(** X1. Between one second and one minute [formatDuration] prints the
    whole seconds, a point, and the hundredths of a second as two digits, cut
    off and not rounded (1999 ms is "1.99s"). *)
Theorem formatDuration_seconds ms :
  (1000 <= ms < 60000)%Z ->
  formatDuration ms =
    of_Z (ms / 1000) +:+ "." +:+ two_digits ((ms mod 1000) / 10) +:+ "s".
Proof.
  intros Hms. unfold formatDuration.
  assert (0 < ms / 1000 < 60)%Z as Hs.
  { split; [apply Z.div_str_pos; lia | apply Z.div_lt_upper_bound; lia]. }
  rewrite (Z.div_small (ms / 1000) 60) by lia.
  change (0 / 60)%Z with 0%Z. cbn [Z.ltb Z.compare].
  destruct (Z.ltb_spec 0 (ms / 1000)); [|lia].
  rewrite Z.rem_mod_nonneg by lia.
  rewrite centiseconds_shown by (apply Z.mod_pos_bound; lia).
  reflexivity.
Qed.

Lemma formatDuration_seconds_witness :
  formatDuration 1999 = of_Z (1999 / 1000) +:+ "." +:+ two_digits ((1999 mod 1000) / 10) +:+ "s".
Proof. apply (formatDuration_seconds 1999). lia. Defined.

(** X2. From one minute up to the largest time value of a [Date] (a range
    in which the arithmetic of the code is exact) the milliseconds below the
    second are not shown: a duration and the same duration cut to whole
    seconds print alike. *)
Theorem formatDuration_drops_milliseconds ms :
  (60000 <= ms <= max_time_value)%Z ->
  formatDuration ms = formatDuration (ms - ms mod 1000).
Proof.
  intros [Hms _]. unfold formatDuration.
  assert ((ms - ms mod 1000) / 1000 = ms / 1000)%Z as ->.
  { rewrite (Z.div_mod ms 1000) at 1 by lia.
    replace (1000 * (ms / 1000) + ms mod 1000 - ms mod 1000)%Z
      with (ms / 1000 * 1000)%Z by lia.
    apply Z.div_mul. lia. }
  assert (60 <= ms / 1000)%Z by (apply Z.div_le_lower_bound; lia).
  assert (0 < ms / 1000 / 60)%Z as Hm by (apply Z.div_str_pos; lia).
  destruct (0 <? ms / 1000 / 60 / 60)%Z; [done|].
  destruct (Z.ltb_spec 0 (ms / 1000 / 60)); [done|lia].
Qed.

Lemma formatDuration_drops_milliseconds_witness :
  formatDuration 83999 = formatDuration (83999 - 83999 mod 1000).
Proof.
  apply (formatDuration_drops_milliseconds 83999). unfold max_time_value. lia.
Defined.

(** X3. From one hour up to the largest time value of a [Date] (a range in
    which the arithmetic of the code is exact) the duration is printed as
    hours, minutes and seconds, with minutes and seconds below 60, and the
    three add up to the whole seconds of the duration. *)
Theorem formatDuration_hours ms :
  (3600000 <= ms <= max_time_value)%Z ->
  exists h m s,
    formatDuration ms = of_Z h +:+ "h " +:+ of_Z m +:+ "m " +:+ of_Z s +:+ "s" /\
    (0 < h /\ 0 <= m < 60 /\ 0 <= s < 60)%Z /\
    (3600 * h + 60 * m + s = ms / 1000)%Z.
Proof.
  intros [Hms _]. unfold formatDuration.
  assert (3600 <= ms / 1000)%Z by (apply Z.div_le_lower_bound; lia).
  assert (60 <= ms / 1000 / 60)%Z by (apply Z.div_le_lower_bound; lia).
  assert (0 < ms / 1000 / 60 / 60)%Z as Hh by (apply Z.div_str_pos; lia).
  destruct (Z.ltb_spec 0 (ms / 1000 / 60 / 60)); [|lia].
  rewrite !Z.rem_mod_nonneg by lia.
  eexists _, _, _. split; [reflexivity|].
  pose proof (Z.mod_pos_bound (ms / 1000 / 60) 60).
  pose proof (Z.mod_pos_bound (ms / 1000) 60).
  pose proof (Z.div_mod (ms / 1000 / 60) 60).
  pose proof (Z.div_mod (ms / 1000) 60).
  lia.
Qed.

Lemma formatDuration_hours_witness :
  exists h m s,
    formatDuration 3725000 = of_Z h +:+ "h " +:+ of_Z m +:+ "m " +:+ of_Z s +:+ "s" /\
    (0 < h /\ 0 <= m < 60 /\ 0 <= s < 60)%Z /\
    (3600 * h + 60 * m + s = 3725000 / 1000)%Z.
Proof. apply (formatDuration_hours 3725000). unfold max_time_value. lia. Defined.

(** ** Type mapper *)

Lemma includes_cons c s p :
  includes (String c s) p = String.prefix p (String c s) || includes s p.
Proof. reflexivity. Qed.

Lemma append_cons c s r : String c s +:+ r = String c (s +:+ r).
Proof. reflexivity. Qed.

Lemma append_nil r : EmptyString +:+ r = r.
Proof. reflexivity. Qed.

Lemma prefix_cons_ne a p c s :
  a <> c -> String.prefix (String a p) (String c s) = false.
Proof. intros Hne. cbn. by destruct (ascii_dec a c). Qed.

(** A pattern that starts with a non-digit cannot start inside a run of
    digits. *)
Lemma includes_skip_digits n r a p :
  all_digits n = true -> is_digit a = false ->
  includes (n +:+ r) (String a p) = includes r (String a p).
Proof.
  intros Hn Ha. induction n as [|d n IH]; [done|].
  cbn [all_digits] in Hn. apply andb_true_iff in Hn as [Hd Hn].
  rewrite append_cons, includes_cons, prefix_cons_ne by congruence.
  by apply IH.
Qed.

Lemma span_digits_run n c r :
  all_digits n = true -> is_digit c = false ->
  span_digits (n +:+ String c r) = (n, String c r).
Proof.
  intros Hn Hc. induction n as [|d n IH].
  - rewrite append_nil. cbn. by rewrite Hc.
  - cbn [all_digits] in Hn. apply andb_true_iff in Hn as [Hd Hn].
    rewrite append_cons. cbn [span_digits]. by rewrite Hd, IH.
Qed.

Lemma prefix_cons_eq a p s :
  String.prefix (String a p) (String a s) = String.prefix p s.
Proof. cbn. by destruct (ascii_dec a a). Qed.

Lemma prefix_nil s : String.prefix EmptyString s = true.
Proof. by destruct s. Qed.

Lemma includes_nil a p : includes EmptyString (String a p) = false.
Proof. reflexivity. Qed.

(** Scan a string for a known pattern, as far as its characters are known and
    across its runs of digits. *)
Ltac scan_head :=
  repeat first
    [ rewrite append_cons
    | rewrite append_nil
    | rewrite includes_cons
    | rewrite includes_nil
    | rewrite prefix_cons_ne by discriminate
    | rewrite prefix_cons_eq
    | rewrite prefix_nil
    | rewrite includes_skip_digits by (assumption || reflexivity)
    | progress cbn [orb] ].

Lemma match_varchar_here s d : varchar_here s = Some d -> match_varchar s = Some d.
Proof. intros H. destruct s; cbn [match_varchar]; by rewrite H. Qed.

Lemma match_decimal_here s pq : decimal_here s = Some pq -> match_decimal s = Some pq.
Proof. intros H. destruct s; cbn [match_decimal]; by rewrite H. Qed.

Lemma digits_then_run n c r :
  n <> EmptyString -> all_digits n = true -> is_digit c = false ->
  digits_then (String c EmptyString) (n +:+ String c r) = Some (n, r).
Proof.
  intros Hne Hn Hc. unfold digits_then. rewrite span_digits_run by done.
  destruct n; [done|]. cbn. by rewrite Ascii.eqb_refl.
Qed.

(** X4. A varchar type keeps its declared length, in any letter case:
    "VarChar(n)" maps to "VARCHAR(n)" for every non-empty decimal [n]. *)
Theorem convertDataType_varchar_length t n :
  toLowerCase t = "varchar(" +:+ n +:+ ")" ->
  n <> EmptyString -> all_digits n = true ->
  convertDataType t = "VARCHAR(" +:+ n +:+ ")".
Proof.
  intros Ht Hne Hn. unfold convertDataType. rewrite Ht.
  assert (includes ("varchar(" +:+ n +:+ ")") "int(" = false) as -> by (by scan_head).
  assert (includes ("varchar(" +:+ n +:+ ")") "bigint" = false) as -> by (by scan_head).
  assert (includes ("varchar(" +:+ n +:+ ")") "smallint" = false) as -> by (by scan_head).
  assert (includes ("varchar(" +:+ n +:+ ")") "tinyint(1)" = false) as -> by (by scan_head).
  assert (includes ("varchar(" +:+ n +:+ ")") "tinyint" = false) as -> by (by scan_head).
  assert (includes ("varchar(" +:+ n +:+ ")") "varchar" = true) as -> by reflexivity.
  rewrite (match_varchar_here _ n); [done|].
  unfold varchar_here.
  change (strip_prefix "varchar(" ("varchar(" +:+ n +:+ ")")) with (Some (n +:+ ")")).
  cbv beta iota. by rewrite digits_then_run.
Qed.

Lemma convertDataType_varchar_length_witness :
  convertDataType "VarChar(64)" = "VARCHAR(" +:+ "64" +:+ ")".
Proof. apply (convertDataType_varchar_length "VarChar(64)" "64"); [reflexivity|discriminate|reflexivity]. Defined.

(** X5. A decimal type keeps its precision and scale, in any letter
    case: "Decimal(p,q)" maps to "DECIMAL(p,q)" for all non-empty decimal [p]
    and [q]. *)
Theorem convertDataType_decimal_precision t p q :
  toLowerCase t = "decimal(" +:+ p +:+ "," +:+ q +:+ ")" ->
  p <> EmptyString -> all_digits p = true ->
  q <> EmptyString -> all_digits q = true ->
  convertDataType t = "DECIMAL(" +:+ p +:+ "," +:+ q +:+ ")".
Proof.
  intros Ht Hpne Hp Hqne Hq. unfold convertDataType. rewrite Ht.
  set (s := "decimal(" +:+ p +:+ "," +:+ q +:+ ")").
  assert (includes s "int(" = false) as -> by (subst s; by scan_head).
  assert (includes s "bigint" = false) as -> by (subst s; by scan_head).
  assert (includes s "smallint" = false) as -> by (subst s; by scan_head).
  assert (includes s "tinyint(1)" = false) as -> by (subst s; by scan_head).
  assert (includes s "tinyint" = false) as -> by (subst s; by scan_head).
  assert (includes s "varchar" = false) as -> by (subst s; by scan_head).
  assert (includes s "text" = false) as -> by (subst s; by scan_head).
  assert (includes s "longtext" = false) as -> by (subst s; by scan_head).
  assert (includes s "mediumtext" = false) as -> by (subst s; by scan_head).
  assert (includes s "decimal" = true) as -> by reflexivity.
  rewrite (match_decimal_here _ (p, q)); [done|].
  unfold decimal_here. subst s.
  change (strip_prefix "decimal(" ("decimal(" +:+ p +:+ "," +:+ q +:+ ")"))
    with (Some (p +:+ "," +:+ q +:+ ")")).
  cbv beta iota. change ("," +:+ q +:+ ")") with (String "," (q +:+ ")")).
  rewrite (digits_then_run p "," (q +:+ ")")) by done.
  by rewrite (digits_then_run q ")" EmptyString).
Qed.

Lemma convertDataType_decimal_precision_witness :
  convertDataType "DECIMAL(10,2)" = "DECIMAL(" +:+ "10" +:+ "," +:+ "2" +:+ ")".
Proof.
  apply (convertDataType_decimal_precision "DECIMAL(10,2)" "10" "2");
    [reflexivity|discriminate|reflexivity|discriminate|reflexivity].
Defined.


(** ** Schema builder *)

(** X6. When the server accepts both statements,
    [createPostgreSQLTable] returns normally, leaves the named table empty
    whatever it held before, leaves every other table as it was, and has sent
    exactly DROP TABLE IF EXISTS and then CREATE TABLE. *)
Theorem createPostgreSQLTable_recreates env tableName columns st :
  pg_rejects env (pg_sent st) ("DROP TABLE IF EXISTS " +:+ tableName) = false ->
  pg_rejects env (S (pg_sent st)) (createSQL tableName columns) = false ->
  let res := createPostgreSQLTable env tableName columns st in
  res.1 = Returned tt /\
  pg_tables res.2 !! tableName = Some [] /\
  (forall other, other <> tableName ->
     pg_tables res.2 !! other = pg_tables st !! other) /\
  statements (drop (length (trace st)) (trace res.2)) =
    ["DROP TABLE IF EXISTS " +:+ tableName; createSQL tableName columns].
Proof.
  intros Hdrop Hcreate.
  destruct (createPostgreSQLTable_fresh env tableName columns st Hdrop Hcreate)
    as (st' & Hrun & Hpg & Htr).
  cbn zeta. rewrite Hrun. cbn [fst snd]. rewrite Hpg, Htr.
  split_and!; [done|by rewrite lookup_insert_eq| |].
  - intros other Hne. by rewrite lookup_insert_ne.
  - by rewrite drop_app_length.
Qed.

Lemma createPostgreSQLTable_recreates_witness :
  let st := {| pg_tables := {[ "users" := [[VNum 7]] ]};
               src_reads := 0; pg_sent := 0; ticks := 0; trace := [] |} in
  let res := createPostgreSQLTable (steady_env [id_column] [] 0) "users"
               [id_column] st in
  res.1 = Returned tt /\
  pg_tables res.2 !! "users" = Some [] /\
  (forall other, other <> "users" ->
     pg_tables res.2 !! other = pg_tables st !! other) /\
  statements (drop (length (trace st)) (trace res.2)) =
    ["DROP TABLE IF EXISTS " +:+ "users"; createSQL "users" [id_column]].
Proof.
  intros st.
  exact (createPostgreSQLTable_recreates (steady_env [id_column] [] 0) "users"
           [id_column] st eq_refl eq_refl).
Defined.

(** X7. Setting the table up twice in a row gives the same tables as
    setting it up once. *)
Theorem createPostgreSQLTable_twice env tableName columns st :
  (forall n sql, pg_rejects env n sql = false) ->
  let once := createPostgreSQLTable env tableName columns st in
  let twice := createPostgreSQLTable env tableName columns once.2 in
  twice.1 = Returned tt /\ pg_tables twice.2 = pg_tables once.2.
Proof.
  intros Hacc.
  destruct (createPostgreSQLTable_fresh env tableName columns st (Hacc _ _) (Hacc _ _))
    as (st1 & Hrun1 & Hpg1 & _).
  destruct (createPostgreSQLTable_fresh env tableName columns st1 (Hacc _ _) (Hacc _ _))
    as (st2 & Hrun2 & Hpg2 & _).
  cbn zeta. rewrite Hrun1. cbn [snd]. rewrite Hrun2. cbn [fst snd].
  split; [done|]. rewrite Hpg2, Hpg1. apply insert_insert_eq.
Qed.

Lemma createPostgreSQLTable_twice_witness :
  let env := steady_env [id_column] [] 0 in
  let once := createPostgreSQLTable env "users" [id_column] empty_users in
  let twice := createPostgreSQLTable env "users" [id_column] once.2 in
  twice.1 = Returned tt /\ pg_tables twice.2 = pg_tables once.2.
Proof.
  intros env.
  exact (createPostgreSQLTable_twice env "users" [id_column] empty_users
           (fun _ _ => eq_refl)).
Defined.

(** X8. When the server refuses the DROP, [createPostgreSQLTable]
    throws at once: no CREATE is sent and no table changes. *)
Theorem createPostgreSQLTable_drop_refused env tableName columns st :
  pg_rejects env (pg_sent st) ("DROP TABLE IF EXISTS " +:+ tableName) = true ->
  let res := createPostgreSQLTable env tableName columns st in
  res.1 = Threw /\ pg_tables res.2 = pg_tables st /\
  trace res.2 = trace st ++ [EvPg ("DROP TABLE IF EXISTS " +:+ tableName) []].
Proof.
  intros Hdrop. unfold createPostgreSQLTable, pg_query. by rewrite Hdrop.
Qed.

Lemma createPostgreSQLTable_drop_refused_witness :
  let env := flaky_env [id_column] [] in
  let res := createPostgreSQLTable env "users" [id_column] empty_users in
  res.1 = Threw /\ pg_tables res.2 = pg_tables empty_users /\
  trace res.2 = trace empty_users ++ [EvPg ("DROP TABLE IF EXISTS " +:+ "users") []].
Proof.
  intros env.
  exact (createPostgreSQLTable_drop_refused env "users" [id_column] empty_users
           eq_refl).
Defined.

(** X9. When the server accepts the DROP and refuses the CREATE,
    [createPostgreSQLTable] throws and the table that was there is gone: the
    two statements are not one transaction. *)
Theorem createPostgreSQLTable_create_refused env tableName columns st :
  pg_rejects env (pg_sent st) ("DROP TABLE IF EXISTS " +:+ tableName) = false ->
  pg_rejects env (S (pg_sent st)) (createSQL tableName columns) = true ->
  let res := createPostgreSQLTable env tableName columns st in
  res.1 = Threw /\ pg_tables res.2 = delete tableName (pg_tables st) /\
  pg_tables res.2 !! tableName = None.
Proof.
  intros Hdrop Hcreate. unfold createPostgreSQLTable, pg_query.
  rewrite Hdrop. cbn -[createSQL]. rewrite Hcreate. cbn -[createSQL].
  split_and!; [done|done|apply lookup_delete_eq].
Qed.

(** A server that accepts the first statement it gets and refuses the
    second. *)
Lemma createPostgreSQLTable_create_refused_witness :
  let env := {| src_columns := fun _ => None; src_rows := fun _ _ => None;
                pg_rejects := fun n _ => n =? 1; now := fun _ => 0%Z |} in
  let st := {| pg_tables := {[ "users" := [[VNum 7]] ]};
               src_reads := 0; pg_sent := 0; ticks := 0; trace := [] |} in
  let res := createPostgreSQLTable env "users" [id_column] st in
  res.1 = Threw /\ pg_tables res.2 = delete "users" (pg_tables st) /\
  pg_tables res.2 !! "users" = None.
Proof.
  intros env st.
  exact (createPostgreSQLTable_create_refused env "users" [id_column] st
           eq_refl eq_refl).
Defined.

Lemma find_none_not_key (columns : list Column) :
  Forall (fun col => Key col <> "PRI") columns ->
  List.find (fun col => String.eqb (Key col) "PRI") columns = None.
Proof.
  induction 1 as [|col columns Hcol _ IH]; [done|].
  cbn. apply String.eqb_neq in Hcol. by rewrite Hcol.
Qed.

(** X10. Without a PRI column the CREATE TABLE text has no PRIMARY KEY
    clause: it is the heading, the column definitions in the order given,
    separated by a comma and a line break, and the closing parenthesis. *)
Theorem createSQL_without_key tableName columns :
  Forall (fun col => Key col <> "PRI") columns ->
  createSQL tableName columns =
    "CREATE TABLE " +:+ tableName +:+ " (" +:+ nl
      +:+ join ("," +:+ nl) (map columnDefinition columns) +:+ nl +:+ ")".
Proof.
  intros Hno. unfold createSQL. rewrite find_none_not_key by done.
  by rewrite !append_assoc.
Qed.

Lemma createSQL_without_key_witness :
  createSQL "log"
    [{| Field := "line"; Type_ := "text"; Null := "YES"; Key := "";
        Default := DefNull |}] =
    "CREATE TABLE " +:+ "log" +:+ " (" +:+ nl
      +:+ join ("," +:+ nl)
            (map columnDefinition
               [{| Field := "line"; Type_ := "text"; Null := "YES"; Key := "";
                   Default := DefNull |}]) +:+ nl +:+ ")".
Proof.
  apply (createSQL_without_key "log"). apply Forall_singleton. discriminate.
Defined.

(** X11. With exactly one PRI column the PRIMARY KEY clause names that
    column, wherever it stands among the columns. *)
Theorem createSQL_single_key tableName before pk after :
  Forall (fun col => Key col <> "PRI") before ->
  Key pk = "PRI" ->
  Forall (fun col => Key col <> "PRI") after ->
  createSQL tableName (before ++ pk :: after) =
    "CREATE TABLE " +:+ tableName +:+ " (" +:+ nl
      +:+ join ("," +:+ nl) (map columnDefinition (before ++ pk :: after))
      +:+ "," +:+ nl +:+ "    PRIMARY KEY (" +:+ Field pk +:+ ")"
      +:+ nl +:+ ")".
Proof.
  intros Hb Hpk _. rewrite (createSQL_first_key tableName before pk after Hb Hpk).
  by rewrite !append_assoc.
Qed.

Lemma createSQL_single_key_witness :
  createSQL "users" ([] ++ id_column :: []) =
    "CREATE TABLE " +:+ "users" +:+ " (" +:+ nl
      +:+ join ("," +:+ nl) (map columnDefinition ([] ++ id_column :: []))
      +:+ "," +:+ nl +:+ "    PRIMARY KEY (" +:+ Field id_column +:+ ")"
      +:+ nl +:+ ")".
Proof.
  apply (createSQL_single_key "users" [] id_column []);
    [apply Forall_nil_2 | reflexivity | apply Forall_nil_2].
Defined.

(** ** The INSERT statement and its retry loop *)

Lemma concat_seq_blocks c n :
  concat (map (fun r => seq (r * c + 1) c) (seq 0 n)) = seq 1 (n * c).
Proof.
  induction n as [|n IH]; [done|].
  rewrite seq_S, map_app, concat_app, IH. cbn [map concat].
  rewrite app_nil_r. replace (S n * c) with (n * c + c) by lia.
  rewrite seq_app. do 2 f_equal. lia.
Qed.

Lemma length_concat_blocks {A} (rows : list (list A)) c :
  Forall (fun vs => length vs = c) rows -> length (concat rows) = length rows * c.
Proof.
  induction 1 as [|vs rows Hvs _ IH]; [done|].
  cbn. rewrite length_app, Hvs, IH. done.
Qed.

(** The running [parameterIndex] over one row: the row takes the next
    numbers, one per column, and leaves the index after them. *)
Lemma row_placeholders_spec columns parameterIndex :
  row_placeholders columns parameterIndex =
    (map (fun k => "$" +:+ of_nat k) (seq parameterIndex (length columns)),
     parameterIndex + length columns).
Proof.
  revert parameterIndex; induction columns as [|col columns IH]; intros k.
  { cbn. by rewrite Nat.add_0_r. }
  cbn [row_placeholders length seq map]. rewrite IH. f_equal. lia.
Qed.

(** The running [parameterIndex] over the rows of a batch. *)
Lemma batch_placeholders_spec columns (batch : list (gmap string Value)) parameterIndex :
  batch_placeholders columns batch parameterIndex =
    map (fun r => map (fun k => "$" +:+ of_nat k)
                    (seq (parameterIndex + r * length columns) (length columns)))
      (seq 0 (length batch)).
Proof.
  revert parameterIndex; induction batch as [|row batch IH]; intros k; [done|].
  cbn [batch_placeholders length seq map]. rewrite row_placeholders_spec, IH.
  rewrite Nat.mul_0_l, Nat.add_0_r. f_equal.
  rewrite <- seq_shift, map_map. apply map_ext. intros r. do 2 f_equal. lia.
Qed.

(** X12. The INSERT of a batch whose values bind carries one
    placeholder per bound value.  The script numbers the placeholders with a
    counter that starts at 1 and runs on over the columns of a row and from
    row to row; so the statement lists, for row [r] (from 0), the
    placeholders [$(r * columns + 1)] to [$((r + 1) * columns)], and over the
    whole batch the placeholders are [$1] to [$n] in order, where [n], rows
    times columns, is the number of values bound. *)
Theorem insert_placeholders_match_values tableName columns batch rows :
  batch_values columns batch = Some rows ->
  length (concat rows) = length batch * length columns /\
  concat (batch_placeholders columns batch 1)
    = map (fun k => "$" +:+ of_nat k) (seq 1 (length (concat rows))) /\
  batchInsertSQL tableName columns batch =
    "INSERT INTO " +:+ tableName +:+ " (" +:+ join ", " (map Field columns)
      +:+ ") VALUES "
      +:+ join ", "
            (map (fun r =>
                    "(" +:+ join ", "
                              (map (fun k => "$" +:+ of_nat k)
                                 (seq (r * length columns + 1) (length columns)))
                        +:+ ")")
               (seq 0 (length batch))).
Proof.
  intros Hbind. apply length_batch_values in Hbind as [Hlen Hall].
  assert (length (concat rows) = length batch * length columns) as Hn
    by (by rewrite (length_concat_blocks _ _ Hall), Hlen).
  split_and!; [done| |].
  - rewrite Hn, batch_placeholders_spec, <- concat_seq_blocks, concat_map, map_map.
    f_equal. apply map_ext. intros r. do 2 f_equal. lia.
  - unfold batchInsertSQL. cbv zeta. rewrite batch_placeholders_spec, map_map.
    do 6 f_equal. apply map_ext. intros r. by rewrite Nat.add_comm.
Qed.

Lemma insert_placeholders_match_values_witness :
  length (concat [[VNum 1]; [VNum 2]]) = 2 * 1 /\
  concat (batch_placeholders [id_column] [id_row 1; id_row 2] 1)
    = map (fun k => "$" +:+ of_nat k) (seq 1 (length (concat [[VNum 1]; [VNum 2]]))) /\
  batchInsertSQL "t1" [id_column] [id_row 1; id_row 2] =
    "INSERT INTO " +:+ "t1" +:+ " (" +:+ join ", " (map Field [id_column])
      +:+ ") VALUES "
      +:+ join ", "
            (map (fun r =>
                    "(" +:+ join ", "
                              (map (fun k => "$" +:+ of_nat k)
                                 (seq (r * 1 + 1) 1))
                        +:+ ")")
               (seq 0 2)).
Proof.
  exact (insert_placeholders_match_values "t1" [id_column] [id_row 1; id_row 2]
           [[VNum 1]; [VNum 2]] eq_refl).
Defined.

Section RetryBounds.

Variable env : Env.
Variable cfg : Config.
Variable tableName : string.
Variable totalRows : nat.
Variable columns : list Column.
Variable startTime : Z.

Abbreviation retry := (insert_with_retry env cfg tableName totalRows columns startTime).

Lemma after_insert_quiet batch L st :
  exists evs,
    trace (after_insert env totalRows startTime batch L st).2 = trace st ++ evs /\
    statements evs = [] /\ batch_sizes evs = [length batch] /\
    delays evs = [] /\ abandoned evs = [].
Proof.
  unfold after_insert, date_now, emit. cbn.
  destruct (5000 <? _)%Z; cbn; eexists; rewrite <- ?app_assoc; done.
Qed.

(** The retry loop with [k] attempts left after [r] failures. *)
Lemma retry_bounds k r batch L st :
  r + k = MAX_RETRIES cfg ->
  exists evs,
    trace (retry k r batch L st).2 = trace st ++ evs /\
    length (statements evs) <= k /\
    delays evs = map (fun attempt => 1000 * attempt) (seq (S r) (length (delays evs))) /\
    length (delays evs) <= k - 1 /\
    (k = 0 /\ evs = [] \/
     batch_sizes evs = [length batch] /\ abandoned evs = [] \/
     batch_sizes evs = [] /\ abandoned evs = [batchCount L] /\
       failures evs = map (fun attempt => (batchCount L, attempt)) (seq (S r) k) /\
       length (statements evs)
         = match batch_values columns batch with Some _ => k | None => 0 end).
Proof.
  revert r st; induction k as [|k IH]; intros r st Hsum.
  { exists []. cbn. rewrite app_nil_r. split_and!; auto. }
  destruct (send_batch_cases env tableName columns batch st)
    as [(rows & old & Hbind & Hacc & Hold) | Hfail].
  - rewrite (retry_accepted _ _ _ _ _ _ _ _ _ _ _ _ _ Hbind Hacc Hold).
    match goal with |- context [after_insert _ _ _ batch L ?s] =>
      destruct (after_insert_quiet batch L s) as (evs & Htr & Hst & Hsz & Hd & Ha)
    end.
    rewrite Htr. cbn [sent_insert trace].
    eexists. rewrite <- app_assoc. split; [reflexivity|].
    observe. rewrite Hst, Hsz, Hd, Ha. cbn.
    split_and!; [lia|done|lia|by right; left].
  - rewrite (retry_refused _ _ _ _ _ _ _ _ _ _ _ Hfail). cbn zeta.
    destruct (send_batch_failed _ _ _ _ _ Hfail)
      as (_ & _ & _ & evs0 & Htr0 & Hsz0 & _ & Hd0 & Ha0 & Hf0 & Hst0).
    assert (length (statements evs0) <= 1) as Hst0'
      by (rewrite Hst0; destruct (batch_values columns batch); lia).
    destruct (Nat.leb_spec (MAX_RETRIES cfg) (S r)) as [Hle|Hgt].
    + assert (k = 0) as -> by lia. cbn. rewrite Htr0.
      eexists. rewrite <- !app_assoc. split; [reflexivity|].
      observe. rewrite Hsz0, Hd0, Ha0, Hf0. cbn [app]. rewrite ?length_app.
      cbn [length seq map]. split_and!; [lia|done|lia|].
      right; right. split_and!; [done|done|done|].
      rewrite Hst0. destruct (batch_values columns batch); lia.
    + match goal with |- context [retry k (S r) batch L ?s] =>
        destruct (IH (S r) s) as (evs & Htr & Hn & Hd & Hdn & Hend); [lia|]
      end.
      rewrite Htr. cbn. rewrite Htr0.
      eexists. rewrite <- !app_assoc. split; [reflexivity|].
      observe. rewrite Hsz0, Hd0, Ha0, Hf0. cbn [app]. rewrite ?length_app.
      cbn [length]. split_and!; [lia| |lia|].
      * cbn [seq map]. f_equal. exact Hd.
      * destruct Hend as [[-> ->] | [[Hsz Ha] | (Hsz & Ha & Hf & Hk)]]; [lia| |].
        -- right; left. by rewrite Hsz, Ha.
        -- right; right. rewrite Hsz, Ha, Hf, Hk. split_and!; [done|done|done|].
           rewrite Hst0. destruct (batch_values columns batch); lia.
Qed.

End RetryBounds.

(** X13. Whatever the server answers and whatever the batch holds,
    the retry loop of one batch sends at most [MAX_RETRIES] INSERT statements;
    the delays between the attempts are 1000 ms times 1, 2, 3, ... in this
    order, fewer than [MAX_RETRIES] of them; and the batch ends either
    inserted once or given up once, never both.  It is given up after exactly
    [MAX_RETRIES] failed attempts, numbered 1 to [MAX_RETRIES]: each of them
    sent one INSERT when the values of the batch bind, and none of them sent
    anything when a value of the batch is an Invalid Date, whose
    [toISOString] throws before the statement is built. *)
Theorem retry_loop_bounded env cfg tableName totalRows columns startTime batch L st :
  0 < MAX_RETRIES cfg ->
  exists evs,
    trace (insert_with_retry env cfg tableName totalRows columns startTime
             (MAX_RETRIES cfg) 0 batch L st).2 = trace st ++ evs /\
    length (statements evs) <= MAX_RETRIES cfg /\
    delays evs = map (fun attempt => 1000 * attempt) (seq 1 (length (delays evs))) /\
    length (delays evs) < MAX_RETRIES cfg /\
    (batch_sizes evs = [length batch] /\ abandoned evs = [] \/
     batch_sizes evs = [] /\ abandoned evs = [batchCount L] /\
       failures evs
         = map (fun attempt => (batchCount L, attempt)) (seq 1 (MAX_RETRIES cfg)) /\
       (Forall (valid_row columns) batch ->
        length (statements evs) = MAX_RETRIES cfg) /\
       (~ Forall (valid_row columns) batch -> statements evs = [])).
Proof.
  intros HM.
  destruct (retry_bounds env cfg tableName totalRows columns startTime
              (MAX_RETRIES cfg) 0 batch L st)
    as (evs & Htr & Hn & Hd & Hdn & Hend); [done|].
  exists evs. split_and!; [done|done|done|lia|].
  destruct Hend as [[? _] | [? | (Hsz & Ha & Hf & Hst)]]; [lia|by left|].
  right. split_and!; [done|done|done| |].
  - intros Hvalid. by rewrite (batch_values_valid _ _ Hvalid) in Hst.
  - intros Hinvalid. rewrite (batch_values_invalid _ _ Hinvalid) in Hst.
    by destruct (statements evs).
Qed.

Lemma retry_loop_bounded_witness :
  exists evs,
    trace (insert_with_retry (flaky_env [id_column] twelve_rows) CONFIG "t1" 12
             [id_column] 0 (MAX_RETRIES CONFIG) 0 [id_row 1]
             {| totalInserted := 0; batchCount := 1; offset := 0;
                lastProgressTime := 0 |} empty_t1).2 = trace empty_t1 ++ evs /\
    length (statements evs) <= MAX_RETRIES CONFIG /\
    delays evs = map (fun attempt => 1000 * attempt) (seq 1 (length (delays evs))) /\
    length (delays evs) < MAX_RETRIES CONFIG /\
    (batch_sizes evs = [length [id_row 1]] /\ abandoned evs = [] \/
     batch_sizes evs = [] /\ abandoned evs = [1] /\
       failures evs = map (fun attempt => (1, attempt)) (seq 1 (MAX_RETRIES CONFIG)) /\
       (Forall (valid_row [id_column]) [id_row 1] ->
        length (statements evs) = MAX_RETRIES CONFIG) /\
       (~ Forall (valid_row [id_column]) [id_row 1] -> statements evs = [])).
Proof.
  apply (retry_loop_bounded (flaky_env [id_column] twelve_rows) CONFIG "t1" 12
           [id_column] 0 [id_row 1]
           {| totalInserted := 0; batchCount := 1; offset := 0;
              lastProgressTime := 0 |} empty_t1).
  vm_compute. lia.
Defined.

(** X14. When the server refuses every INSERT, the retry loop of a
    batch leaves the loop variables and the target as they were, waits
    1000, 2000, ..., 1000 * (MAX_RETRIES - 1) ms between the attempts and gives
    the batch up once; no row of it is counted. *)
Theorem retry_loop_exhausted env cfg tableName totalRows columns startTime batch L st :
  (forall n sql, String.prefix "INSERT" sql = true -> pg_rejects env n sql = true) ->
  0 < MAX_RETRIES cfg ->
  let res := insert_with_retry env cfg tableName totalRows columns startTime
               (MAX_RETRIES cfg) 0 batch L st in
  res.1 = L /\ pg_tables res.2 = pg_tables st /\
  exists evs, trace res.2 = trace st ++ evs /\
    batch_sizes evs = [] /\ abandoned evs = [batchCount L] /\
    delays evs = map (fun attempt => 1000 * attempt) (seq 1 (MAX_RETRIES cfg - 1)).
Proof.
  intros Href HM.
  by apply (retry_all_refused env cfg tableName totalRows columns startTime Href).
Qed.

Lemma retry_loop_exhausted_witness :
  let res := insert_with_retry (refusing_env [id_column] twelve_rows) CONFIG "t1"
               12 [id_column] 0 (MAX_RETRIES CONFIG) 0 [id_row 1]
               {| totalInserted := 0; batchCount := 1; offset := 0;
                  lastProgressTime := 0 |} empty_t1 in
  res.1 = {| totalInserted := 0; batchCount := 1; offset := 0;
             lastProgressTime := 0 |} /\
  pg_tables res.2 = pg_tables empty_t1 /\
  exists evs, trace res.2 = trace empty_t1 ++ evs /\
    batch_sizes evs = [] /\ abandoned evs = [1] /\
    delays evs = map (fun attempt => 1000 * attempt) (seq 1 (MAX_RETRIES CONFIG - 1)).
Proof.
  apply (retry_loop_exhausted (refusing_env [id_column] twelve_rows) CONFIG "t1"
           12 [id_column] 0 [id_row 1]
           {| totalInserted := 0; batchCount := 1; offset := 0;
              lastProgressTime := 0 |} empty_t1).
  - intros n sql Hsql. exact Hsql.
  - vm_compute. lia.
Defined.

(** ** The transfer as a whole *)

Lemma tiles_app start ps mid qs stop :
  tiles start ps mid -> tiles mid qs stop -> tiles start (ps ++ qs) stop.
Proof.
  revert start; induction ps as [|[[o l] r] ps IH]; intros start; cbn.
  - by intros ->.
  - intros [-> Hps] Hqs. split; [done|]. by apply IH.
Qed.

Lemma take_min_length {A} (l : list A) n :
  take (Nat.min n (length l)) l = take n l.
Proof.
  destruct (Nat.le_ge_cases n (length l));
    [by rewrite Nat.min_l | by rewrite Nat.min_r, !take_ge by lia].
Qed.

Section Whole.

Variable env : Env.
Variable cfg : Config.
Variable tableName : string.
Variable totalRows : nat.
Variable columns : list Column.
Variable startTime : Z.

Abbreviation retry := (insert_with_retry env cfg tableName totalRows columns startTime).
Abbreviation batches := (batch_loop env cfg tableName totalRows columns startTime).
Abbreviation paging := (page_loop env cfg tableName totalRows columns startTime).
Abbreviation fetch := (fetch_page env cfg tableName totalRows).
Abbreviation limit := (page_limit cfg totalRows).

(** The pages the loop asks for tile the rows from its first offset to its
    last. *)
Lemma page_loop_tiles fuel L st r L' st' :
  paging fuel L st = Some (r, L', st') ->
  exists evs, trace st' = trace st ++ evs /\
    tiles (offset L) (pages evs) (offset L') /\
    Forall (fun p => p.1.2 = Nat.min (STREAM_LIMIT cfg) (totalRows - p.1.1))
      (pages evs).
Proof.
  set (J := fun (L1 : Locals) (st1 : State) =>
    exists evs, trace st1 = trace st ++ evs /\
      tiles (offset L) (pages evs) (offset L1) /\
      Forall (fun p => p.1.2 = Nat.min (STREAM_LIMIT cfg) (totalRows - p.1.1))
        (pages evs)).
  intros Hrun.
  apply (page_loop_rule env cfg tableName totalRows columns startTime J
           (fun _ => J)) with (fuel := fuel) (L := L) (st := st) (r := r);
    [| | | | |done].
  - done.
  - intros L1 st1 (evs & Htr & Ht & Hl) _ _.
    rewrite fetch_page_state. exists (evs ++ [EvMySQL (page_sql cfg tableName totalRows L1)]).
    cbn. rewrite Htr, <- app_assoc. split; [done|].
    unfold pages in *. rewrite omap_app. cbn. by rewrite app_nil_r.
  - intros L1 st1 (evs & Htr & Ht & Hl) _ _.
    rewrite fetch_page_state.
    exists (evs ++ [EvMySQL (page_sql cfg tableName totalRows L1);
                    EvPage (offset L1) (limit L1) 0]).
    cbn. rewrite Htr, <- !app_assoc. split; [done|].
    unfold pages in *. rewrite omap_app. cbn. split.
    + eapply tiles_app; [done|]. cbn. split; [done|lia].
    + apply Forall_app. split; [done|]. by apply Forall_singleton.
  - intros L1 st1 rows fuel1 L2 st2 (evs & Htr & Ht & Hl) _ _ _ Hb.
    apply batch_loop_frame in Hb as (Ho2 & _ & _ & evs2 & Htr2 & Hp2 & _).
    destruct (checkpoint_spec cfg (advance_offset (length rows) L2) st2)
      as (_ & _ & evs3 & Htr3 & _ & Hp3 & _).
    exists (evs ++ [EvMySQL (page_sql cfg tableName totalRows L1);
                    EvPage (offset L1) (limit L1) (length rows)]
              ++ evs2 ++ evs3).
    rewrite Htr3, Htr2. unfold emit. cbn [trace].
    rewrite fetch_page_state. cbn [trace]. rewrite Htr.
    split; [by rewrite <- !app_assoc|].
    unfold pages in *. rewrite !omap_app, Hp2, Hp3. cbn. split.
    + eapply tiles_app; [done|]. cbn. split; [done|lia].
    + apply Forall_app. split; [done|]. by apply Forall_singleton.
  - exists []. rewrite app_nil_r. by cbn.
Qed.

(** Insert failures stay inside the loop: the page loop throws only when a
    page fetch fails. *)
Lemma page_loop_returns fuel L st r L' st' :
  (forall k, is_Some (src_rows env k tableName)) ->
  paging fuel L st = Some (r, L', st') -> r = Returned tt.
Proof.
  intros Hsrc.
  apply (page_loop_rule env cfg tableName totalRows columns startTime
           (fun _ _ => True) (fun r _ _ => r = Returned tt)); try done.
  intros L1 st1 _ _ Hf. unfold fetch_page, mysql_execute in Hf. cbn in Hf.
  destruct (Hsrc (src_reads st1)) as [table Ht]. by rewrite Ht in Hf.
Qed.

(** *** The rows stored *)

Variable table : list (gmap string Value).
Hypothesis Hstatic : forall k, src_rows env k tableName = Some table.
Hypothesis Haccept : forall n sql, pg_rejects env n sql = false.
Hypothesis Hretries : 0 < MAX_RETRIES cfg.

Lemma batch_loop_stores fuel rows L st L' st' old :
  Forall (valid_row columns) rows ->
  pg_tables st !! tableName = Some old ->
  batches fuel 0 rows L st = Some (L', st') ->
  pg_tables st' !! tableName
    = Some (old ++ map (fun row => bound_row columns row) rows).
Proof.
  intros Hvalid Hold Hrun.
  set (I := fun (i : nat) (L1 : Locals) (st1 : State) =>
    pg_tables st1 !! tableName
      = Some (old ++ map (fun row => bound_row columns row) (take i rows))).
  destruct (batch_loop_rule env cfg tableName totalRows columns startTime I rows)
    with (fuel := fuel) (i := 0) (L := L) (st := st) (L' := L') (st' := st')
    as (j & Hj & HI); [| |done|].
  - intros i L1 st1 Hi HI. unfold I in *.
    destruct (MAX_RETRIES cfg) as [|k]; [lia|].
    assert (Hbind : batch_values columns (slice rows i (i + BATCH_SIZE cfg))
                    = Some (map (fun row => bound_row columns row)
                              (slice rows i (i + BATCH_SIZE cfg))))
      by apply batch_values_valid, Forall_take, Forall_drop, Hvalid.
    rewrite (retry_accepted _ _ _ _ _ _ _ _ _ _ _ _ _ Hbind (Haccept _ _) HI).
    match goal with |- context [after_insert _ _ _ ?b ?L0 ?s] =>
      destruct (after_insert_spec env totalRows startTime b L0 s)
        as (_ & _ & _ & Hpg & _)
    end.
    cbn zeta in *. rewrite Hpg. cbn [sent_insert pg_tables].
    rewrite lookup_insert_eq. f_equal. rewrite <- app_assoc. f_equal.
    rewrite <- map_app. f_equal. unfold slice.
    replace (i + BATCH_SIZE cfg - i) with (BATCH_SIZE cfg) by lia.
    apply take_take_drop.
  - unfold I. cbn. by rewrite app_nil_r.
  - unfold I in HI. by rewrite take_ge in HI.
Qed.

Hypothesis Hvalid : Forall (valid_row columns) table.

Lemma page_loop_stores fuel L st r L' st' old :
  pg_tables st !! tableName
    = Some (old ++ map (fun row => bound_row columns row) (take (offset L) table)) ->
  paging fuel L st = Some (r, L', st') ->
  pg_tables st' !! tableName
    = Some (old ++ map (fun row => bound_row columns row) (take (offset L') table)).
Proof.
  intros Hold.
  set (J := fun (L1 : Locals) (st1 : State) =>
    pg_tables st1 !! tableName
      = Some (old ++ map (fun row => bound_row columns row)
                       (take (offset L1) table))).
  apply (page_loop_rule env cfg tableName totalRows columns startTime J
           (fun _ => J)); try done.
  intros L1 st1 rows fuel1 L2 st2 HJ _ Hf _ Hb.
  apply fetch_page_rows in Hf as (table' & Hsrc & ->).
  rewrite Hstatic in Hsrc. injection Hsrc as <-.
  pose proof Hb as Hframe. apply batch_loop_frame in Hframe as (Ho2 & _).
  eapply batch_loop_stores in Hb;
    [|by apply Forall_take, Forall_drop, Hvalid|exact HJ].
  destruct (checkpoint_spec cfg
              (advance_offset (length (take (limit L1) (drop (offset L1) table))) L2)
              st2) as (Hpg3 & _).
  unfold J. rewrite Hpg3, Hb. cbn [advance_offset offset]. rewrite Ho2.
  f_equal. rewrite <- app_assoc. f_equal. rewrite <- map_app. f_equal.
  rewrite <- (take_take_drop table (offset L1)
                (length (take (limit L1) (drop (offset L1) table)))).
  f_equal. rewrite length_take. symmetry. apply take_min_length.
Qed.

End Whole.

Lemma transfer_stores_all env cfg tableName R columns st fuel table old :
  0 < BATCH_SIZE cfg -> 0 < STREAM_LIMIT cfg -> 0 < MAX_RETRIES cfg ->
  (forall k, src_rows env k tableName = Some table) ->
  Forall (valid_row columns) table ->
  R <= length table ->
  (forall n sql, pg_rejects env n sql = false) ->
  pg_tables st !! tableName = Some old ->
  R <= fuel ->
  exists st',
    copyTableDataStream env cfg fuel tableName R columns st
      = Some (Returned R, st') /\
    pg_tables st' !! tableName
      = Some (old ++ map (fun row => bound_row columns row) (take R table)).
Proof.
  intros HB HP HM Hstatic Hvalid Hlen Hacc Hold Hfuel.
  destruct (stream_run_total env cfg fuel tableName R columns st HB Hfuel)
    as (r & L & st' & Hrun & Hloop).
  unfold copyTableDataStream. rewrite Hrun.
  pose proof Hloop as Hstore.
  apply page_loop_all_inserted in Hloop as (-> & Ho & Ht & _);
    [|by intros k; exists table|done
     |by intros k table' Hk; rewrite Hstatic in Hk; injection Hk as <-
     |done|done|by eexists|cbn; lia].
  eapply (page_loop_stores env cfg tableName R columns _ table Hstatic Hacc HM
            Hvalid)
    with (old := old) in Hstore; [|cbn; by rewrite app_nil_r].
  cbn in Ht. rewrite Nat.sub_0_r in Ht. rewrite Ho in Hstore.
  cbn. eexists. rewrite Ht. split; [reflexivity|]. exact Hstore.
Qed.

(** X15. When every read of the source presents the same rows in the
    same order (the page queries carry no ORDER BY, so the server does not
    promise it), none of their values is an Invalid Date and no insert is
    refused, the transfer returns [R] and the target table holds what it held
    before followed by the first [R] rows as read, each as the values of its
    columns in column order, a [Date] as its ISO string and a missing field
    as [undefined]: no row is lost, doubled or moved. *)
Theorem transfer_stores_rows_in_order
    env cfg tableName R columns st fuel table old :
  0 < BATCH_SIZE cfg -> 0 < STREAM_LIMIT cfg -> 0 < MAX_RETRIES cfg ->
  (forall k, src_rows env k tableName = Some table) ->
  Forall (valid_row columns) table ->
  R <= length table ->
  (forall n sql, pg_rejects env n sql = false) ->
  pg_tables st !! tableName = Some old ->
  R <= fuel ->
  exists st',
    copyTableDataStream env cfg fuel tableName R columns st
      = Some (Returned R, st') /\
    pg_tables st' !! tableName
      = Some (old ++
              map (fun row =>
                     map (fun col =>
                            match row !! Field col with
                            | Some (VDate iso) => VStr iso
                            | Some value => value
                            | None => VUndefined
                            end) columns)
                (take R table)).
Proof. apply transfer_stores_all. Qed.

Lemma transfer_stores_rows_in_order_witness :
  let table : list (gmap string Value) :=
    [ {[ "id" := VNum 1 ]}; {[ "id" := VDate "2024-02-29T12:00:00.000Z" ]}; ∅ ] in
  exists st',
    copyTableDataStream (steady_env [id_column] table 0) small_config 3
      "t1" 3 [id_column] empty_t1 = Some (Returned 3, st') /\
    pg_tables st' !! "t1"
      = Some ([] ++ [[VNum 1]; [VStr "2024-02-29T12:00:00.000Z"]; [VUndefined]]).
Proof.
  intros table.
  apply (transfer_stores_rows_in_order (steady_env [id_column] table 0)
           small_config "t1" 3 [id_column] empty_t1 3 table []).
  - vm_compute; lia.
  - vm_compute; lia.
  - vm_compute; lia.
  - reflexivity.
  - repeat constructor; by vm_compute.
  - vm_compute; lia.
  - reflexivity.
  - reflexivity.
  - lia.
Defined.

(** X16. As long as every page fetch succeeds the transfer returns a
    row count and does not throw, whatever happens to the inserts. *)
Theorem transfer_contains_insert_failures env cfg tableName R columns st fuel :
  0 < BATCH_SIZE cfg ->
  (forall k, is_Some (src_rows env k tableName)) ->
  R <= fuel ->
  exists n st',
    copyTableDataStream env cfg fuel tableName R columns st
      = Some (Returned n, st').
Proof.
  intros HB Hsrc Hfuel.
  destruct (stream_run_total env cfg fuel tableName R columns st HB Hfuel)
    as (r & L & st' & Hrun & Hloop).
  unfold copyTableDataStream. rewrite Hrun.
  apply page_loop_returns in Hloop as ->; [|done]. cbn. by eexists _, _.
Qed.

Lemma transfer_contains_insert_failures_witness :
  exists n st',
    copyTableDataStream (flaky_env [id_column] twelve_rows) small_config 12
      "t1" 12 [id_column] empty_t1 = Some (Returned n, st').
Proof.
  apply (transfer_contains_insert_failures (flaky_env [id_column] twelve_rows)
           small_config "t1" 12 [id_column] empty_t1 12).
  - vm_compute; lia.
  - intros k. by eexists.
  - lia.
Defined.

(** X17. When rows are expected and the first page fetch fails, the
    transfer throws; the only statement sent is that SELECT, and the target is
    not touched. *)
Theorem transfer_first_fetch_fails env cfg tableName R columns st fuel :
  0 < R -> 0 < fuel ->
  src_rows env (src_reads st) tableName = None ->
  exists st',
    copyTableDataStream env cfg fuel tableName R columns st = Some (Threw, st') /\
    pg_tables st' = pg_tables st /\ pg_sent st' = pg_sent st /\
    exists sql, trace st' = trace st ++ [EvMySQL sql].
Proof.
  intros HR Hfuel Hsrc. destruct fuel as [|fuel]; [lia|].
  unfold copyTableDataStream, stream_run. cbn [date_now page_loop offset].
  destruct (Nat.ltb_spec 0 R); [|lia].
  unfold fetch_page, mysql_execute. cbn. rewrite Hsrc. cbn.
  eexists. split; [reflexivity|]. cbn. split_and!; [done|done|by eexists].
Qed.

Lemma transfer_first_fetch_fails_witness :
  let env := {| src_columns := fun _ => None; src_rows := fun _ _ => None;
                pg_rejects := fun _ _ => false; now := fun _ => 0%Z |} in
  exists st',
    copyTableDataStream env CONFIG 1 "users" 3 [id_column] empty_users
      = Some (Threw, st') /\
    pg_tables st' = pg_tables empty_users /\ pg_sent st' = pg_sent empty_users /\
    exists sql, trace st' = trace empty_users ++ [EvMySQL sql].
Proof.
  intros env.
  apply (transfer_first_fetch_fails env CONFIG "users" 3 [id_column] empty_users 1);
    [lia | lia | reflexivity].
Defined.

(** X18. With [totalRows = 0] the transfer returns 0 and sends nothing to
    either server.  With rows expected but a source table that is empty when
    the first page is read (the count was stale), it sends that one SELECT,
    takes the empty page as the end of the data and returns 0 without
    throwing. *)
Theorem transfer_of_nothing env cfg tableName columns st fuel :
  (exists st',
     copyTableDataStream env cfg fuel tableName 0 columns st
       = Some (Returned 0, st') /\
     trace st' = trace st /\ pg_tables st' = pg_tables st) /\
  (forall R,
     0 < R -> 0 < fuel ->
     src_rows env (src_reads st) tableName = Some [] ->
     exists st' evs,
       copyTableDataStream env cfg fuel tableName R columns st
         = Some (Returned 0, st') /\
       trace st' = trace st ++ evs /\ length (statements evs) = 1 /\
       pg_sent st' = pg_sent st /\ pg_tables st' = pg_tables st).
Proof.
  split.
  - unfold copyTableDataStream, stream_run. cbn [date_now].
    destruct fuel; cbn; by eexists.
  - intros R HR Hfuel Hsrc. destruct fuel as [|fuel]; [lia|].
    unfold copyTableDataStream, stream_run. cbn [date_now page_loop offset].
    destruct (Nat.ltb_spec 0 R); [|lia].
    unfold fetch_page, mysql_execute. cbn. rewrite Hsrc. cbn.
    rewrite take_nil. cbn.
    eexists _, _. split; [reflexivity|]. cbn. rewrite <- app_assoc.
    split_and!; [reflexivity|done|done|done].
Qed.

Lemma transfer_of_nothing_witness :
  exists st' evs,
    copyTableDataStream (steady_env [id_column] [] 0) CONFIG 1 "users" 3
      [id_column] empty_users = Some (Returned 0, st') /\
    trace st' = trace empty_users ++ evs /\ length (statements evs) = 1 /\
    pg_sent st' = pg_sent empty_users /\ pg_tables st' = pg_tables empty_users.
Proof.
  apply (proj2 (transfer_of_nothing (steady_env [id_column] [] 0) CONFIG "users"
                  [id_column] empty_users 1) 3); [lia | lia | reflexivity].
Defined.

(** X19. Whatever the servers do, the pages asked for tile the table
    from row 0 on: each page starts at the offset where the rows returned so
    far end, and asks for [min(STREAM_LIMIT, totalRows - offset)] rows; the
    tiling stops at or before [totalRows]. *)
Theorem pages_tile_the_table env cfg tableName R columns st fuel :
  0 < BATCH_SIZE cfg -> R <= fuel ->
  exists res st' evs stop,
    copyTableDataStream env cfg fuel tableName R columns st = Some (res, st') /\
    trace st' = trace st ++ evs /\
    tiles 0 (pages evs) stop /\ stop <= R /\
    Forall (fun p => p.1.2 = Nat.min (STREAM_LIMIT cfg) (R - p.1.1)) (pages evs).
Proof.
  intros HB Hfuel.
  destruct (stream_run_total env cfg fuel tableName R columns st HB Hfuel)
    as (r & L & st' & Hrun & Hloop).
  unfold copyTableDataStream. rewrite Hrun.
  pose proof Hloop as Hbound.
  apply page_loop_tiles in Hloop as (evs & Htr & Ht & Hl).
  apply page_loop_bound in Hbound as (Ho & _); [|cbn; lia].
  cbn in Htr, Ht.
  destruct r as [[]|]; cbn; eexists _, _, evs, (offset L); by split_and!.
Qed.

Lemma pages_tile_the_table_witness :
  exists res st' evs stop,
    copyTableDataStream (steady_env [id_column] twelve_rows 0) small_config 12
      "t1" 12 [id_column] empty_t1 = Some (res, st') /\
    trace st' = trace empty_t1 ++ evs /\
    tiles 0 (pages evs) stop /\ stop <= 12 /\
    Forall (fun p => p.1.2 = Nat.min (STREAM_LIMIT small_config) (12 - p.1.1))
      (pages evs).
Proof.
  apply (pages_tile_the_table (steady_env [id_column] twelve_rows 0) small_config
           "t1" 12 [id_column] empty_t1 12); [vm_compute; lia | lia].
Defined.

(** ** Verifier and orchestrator *)

(** X22. [verifyData] throws, and prints no verdict, when a count
    cannot be read: when the source count fails the target is not queried at
    all, and when the target table does not exist the count on it fails. *)
Theorem verifyData_throws_without_counts env tableName st :
  let res := verifyData env tableName st in
  (src_rows env (src_reads st) tableName = None ->
     res.1 = Threw /\ pg_sent res.2 = pg_sent st /\
     trace res.2 = trace st ++ [EvMySQL (count_sql tableName)]) /\
  (pg_tables st !! tableName = None ->
     res.1 = Threw /\ verdicts (drop (length (trace st)) (trace res.2)) = []).
Proof.
  cbn zeta. unfold verifyData, mysql_execute, pg_query, sem_count.
  split.
  - intros ->. by cbn.
  - intros Hnone. destruct (src_rows _ _ _); cbn -[count_sql].
    + rewrite Hnone. destruct (pg_rejects _ _ _); cbn -[count_sql];
        (split; [done|]); rewrite <- app_assoc, drop_app_length; done.
    + split; [done|]. by rewrite drop_app_length.
Qed.

Lemma verifyData_throws_without_counts_witness :
  let res := verifyData (steady_env [id_column] [id_row 1] 0) "users" initial_state in
  res.1 = Threw /\
  verdicts (drop (length (trace initial_state)) (trace res.2)) = [].
Proof.
  intros res.
  apply (proj2 (verifyData_throws_without_counts
                  (steady_env [id_column] [id_row 1] 0) "users" initial_state)).
  reflexivity.
Defined.

(** X23. When nothing fails (the servers accept every statement and
    no value read is an Invalid Date) and every read of the source presents
    the same rows in the same order, [copyTable] ends with the summary "all
    copied": the rows copied, the rows of the source and the rows counted in
    the target are the same number, the counts match, the verdict is SUCCESS,
    and the target table "users" holds exactly the source rows as read, in
    order, each as the values of its columns with a [Date] as its ISO string,
    whatever the table held before. *)
Theorem copyTable_complete_success env cfg rows columns fuel st :
  0 < BATCH_SIZE cfg -> 0 < STREAM_LIMIT cfg -> 0 < MAX_RETRIES cfg ->
  src_columns env "users" = Some columns ->
  (forall k, src_rows env k "users" = Some rows) ->
  Forall (valid_row columns) rows ->
  (forall n sql, pg_rejects env n sql = false) ->
  length rows <= fuel ->
  exists st',
    copyTable env cfg fuel st =
      Some (Returned {| copiedRows := length rows; sourceRows := length rows;
                        postgresCount := Some (length rows); countsMatch := true;
                        verdict := Success |}, st') /\
    pg_tables st' !! "users"
      = Some (map (fun row =>
                     map (fun col =>
                            match row !! Field col with
                            | Some (VDate iso) => VStr iso
                            | Some value => value
                            | None => VUndefined
                            end) columns)
                rows).
Proof.
  intros HB HP HM Hcols Hrows Hvalid Hacc Hfuel.
  unfold copyTable. cbn zeta. rewrite Hcols.
  unfold mysql_execute at 1. rewrite Hrows. cbn [fmap option_fmap option_map].
  match goal with |- context [createPostgreSQLTable env "users" columns ?s] =>
    destruct (createPostgreSQLTable_fresh env "users" columns s)
      as (st2 & Hcreate & Hpg2 & _); [apply Hacc..|]; rewrite Hcreate
  end.
  match goal with |- context [copyTableDataStream env cfg fuel "users" _ columns ?s] =>
    destruct (transfer_stores_all env cfg "users" (length rows) columns
                s fuel rows [])
      as (st3 & Hcopy & Hpg3); try done;
      [cbn; rewrite Hpg2; apply lookup_insert_eq |];
      rewrite Hcopy
  end.
  rewrite take_ge in Hpg3 by done. cbn [app] in Hpg3.
  unfold pg_query. rewrite Hacc. unfold sem_count. cbn [pg_tables date_now snd].
  rewrite Hpg3. cbn [fmap option_fmap option_map fst].
  rewrite length_map, parseInt_of_nat, Nat.eqb_refl.
  rewrite bool_decide_eq_true_2 by done.
  eexists. split; [reflexivity|]. exact Hpg3.
Qed.

Lemma copyTable_complete_success_witness :
  let rows : list (gmap string Value) :=
    [ {[ "id" := VNum 1 ]}; {[ "id" := VDate "2024-02-29T12:00:00.000Z" ]} ] in
  exists st',
    copyTable (steady_env [id_column] rows 0) CONFIG 2 initial_state =
      Some (Returned {| copiedRows := 2; sourceRows := 2;
                        postgresCount := Some 2;
                        countsMatch := true; verdict := Success |}, st') /\
    pg_tables st' !! "users" = Some [[VNum 1]; [VStr "2024-02-29T12:00:00.000Z"]].
Proof.
  intros rows.
  apply (copyTable_complete_success (steady_env [id_column] rows 0) CONFIG
           rows [id_column] 2 initial_state).
  - vm_compute; lia.
  - vm_compute; lia.
  - vm_compute; lia.
  - reflexivity.
  - reflexivity.
  - repeat constructor; by vm_compute.
  - reflexivity.
  - vm_compute; lia.
Defined.

(** X24. When DESCRIBE or the row count of the source fails,
    [copyTable] ends in failure before anything is sent to the target: no
    table is dropped. *)
Theorem copyTable_stops_without_metadata env cfg fuel st :
  src_columns env "users" = None \/ src_rows env (src_reads st) "users" = None ->
  exists st',
    copyTable env cfg fuel st = Some (Threw, st') /\
    pg_tables st' = pg_tables st /\ pg_sent st' = pg_sent st.
Proof.
  intros Hfail. unfold copyTable. cbn zeta. unfold mysql_execute at 1.
  cbn [date_now emit snd src_reads].
  destruct Hfail as [-> | ->].
  - cbn. by eexists.
  - destruct (src_columns _ _); cbn; by eexists.
Qed.

Lemma copyTable_stops_without_metadata_witness :
  let env := {| src_columns := fun _ => None; src_rows := fun _ _ => None;
                pg_rejects := fun _ _ => false; now := fun _ => 0%Z |} in
  exists st',
    copyTable env CONFIG 0 empty_users = Some (Threw, st') /\
    pg_tables st' = pg_tables empty_users /\ pg_sent st' = pg_sent empty_users.
Proof.
  intros env.
  apply (copyTable_stops_without_metadata env CONFIG 0 empty_users).
  left. reflexivity.
Defined.

(** ** Accounting of the batches *)

Section Accounting.

Variable env : Env.
Variable cfg : Config.
Variable tableName : string.
Variable totalRows : nat.
Variable columns : list Column.
Variable startTime : Z.

Hypothesis Hbatch : 0 < BATCH_SIZE cfg.
Hypothesis Hretries : 0 < MAX_RETRIES cfg.

Abbreviation retry := (insert_with_retry env cfg tableName totalRows columns startTime).
Abbreviation batches := (batch_loop env cfg tableName totalRows columns startTime).
Abbreviation paging := (page_loop env cfg tableName totalRows columns startTime).

Abbreviation accounted := (accounted cfg).

Lemma accounted_refl L st : accounted L st L st.
Proof.
  split; [done|]. exists []. rewrite app_nil_r, Nat.sub_diag. by cbn.
Qed.

Lemma retry_outcome batch L st :
  exists evs,
    trace (retry (MAX_RETRIES cfg) 0 batch L st).2 = trace st ++ evs /\
    (batch_sizes evs = [length batch] /\ abandoned evs = [] \/
     batch_sizes evs = [] /\ abandoned evs = [batchCount L]).
Proof.
  destruct (retry_bounds env cfg tableName totalRows columns startTime
              (MAX_RETRIES cfg) 0 batch L st)
    as (evs & Htr & _ & _ & _ & Hend); [done|].
  exists evs. split; [done|].
  destruct Hend as [[? _] | [? | (? & ? & _)]]; [lia|by left|by right].
Qed.

Lemma batch_loop_accounted fuel rows L st L' st' :
  batches fuel 0 rows L st = Some (L', st') -> accounted L st L' st'.
Proof.
  intros Hrun.
  destruct (batch_loop_rule env cfg tableName totalRows columns startTime
              (fun _ => accounted L st) rows)
    with (fuel := fuel) (i := 0) (L := L) (st := st) (L' := L') (st' := st')
    as (j & _ & Hacc); [|apply accounted_refl|done|done].
  intros i L1 st1 Hi (Hle & evs & Htr & Hsum & Hsz).
  destruct (retry_outcome (slice rows i (i + BATCH_SIZE cfg)) (next_batch L1) st1)
    as (evs' & Htr' & Hend).
  destruct (retry_frame env cfg tableName totalRows columns startTime
              (MAX_RETRIES cfg) 0 (slice rows i (i + BATCH_SIZE cfg))
              (next_batch L1) st1) as (Hbc & _).
  cbn zeta in *. split; [rewrite Hbc; cbn; lia|].
  exists (evs ++ evs'). rewrite Htr', Htr, app_assoc, Hbc. cbn [next_batch batchCount].
  split; [done|]. unfold batch_sizes, abandoned in *. rewrite !omap_app, !length_app.
  destruct Hend as [[-> ->] | [-> ->]]; cbn [length]; (split; [lia|]).
  - apply Forall_app. split; [done|]. apply Forall_singleton.
    rewrite length_slice. lia.
  - by rewrite app_nil_r.
Qed.

Lemma page_loop_accounted fuel L st r L' st' :
  paging fuel L st = Some (r, L', st') -> accounted L st L' st'.
Proof.
  apply (page_loop_rule env cfg tableName totalRows columns startTime
           (accounted L st) (fun _ => accounted L st)).
  - done.
  - intros L1 st1 (Hle & evs & Htr & Hsum & Hsz) _ _. split; [done|].
    rewrite fetch_page_state. cbn [trace]. rewrite Htr.
    eexists. rewrite <- app_assoc. split; [reflexivity|].
    unfold batch_sizes, abandoned in *. rewrite !omap_app. cbn.
    by rewrite !app_nil_r.
  - intros L1 st1 (Hle & evs & Htr & Hsum & Hsz) _ _. split; [done|].
    rewrite fetch_page_state. cbn [emit trace]. rewrite Htr.
    eexists. rewrite <- !app_assoc. split; [reflexivity|].
    unfold batch_sizes, abandoned in *. rewrite !omap_app. cbn.
    by rewrite !app_nil_r.
  - intros L1 st1 rows fuel1 L2 st2 (Hle & evs & Htr & Hsum & Hsz) _ _ _ Hb.
    apply batch_loop_accounted in Hb as (Hle2 & evs2 & Htr2 & Hsum2 & Hsz2).
    destruct (checkpoint_spec cfg (advance_offset (length rows) L2) st2)
      as (_ & _ & evs3 & Htr3 & Hsz3 & _ & Ha3 & _).
    split; [cbn; lia|].
    exists (evs ++ [EvMySQL (page_sql cfg tableName totalRows L1);
                    EvPage (offset L1) (page_limit cfg totalRows L1) (length rows)]
              ++ evs2 ++ evs3).
    rewrite Htr3, Htr2. unfold emit. cbn [trace].
    rewrite fetch_page_state. cbn [trace]. rewrite Htr.
    split; [by rewrite <- !app_assoc|].
    unfold batch_sizes, abandoned in *.
    rewrite !omap_app, Hsz3, Ha3, !length_app. cbn. split; [lia|].
    rewrite app_nil_r. by apply Forall_app.
  - apply accounted_refl.
Qed.

End Accounting.

(** X20. With a positive batch size and retry count, and whatever the
    servers do, every batch the transfer counts ends exactly one way: it is
    inserted or it is given up; the two together number the batches
    counted. *)
Theorem every_batch_accounted env cfg tableName R columns st fuel :
  0 < BATCH_SIZE cfg -> 0 < MAX_RETRIES cfg -> R <= fuel ->
  exists r L st' evs,
    stream_run env cfg fuel tableName R columns st = Some (r, L, st') /\
    trace st' = trace st ++ evs /\
    length (batch_sizes evs) + length (abandoned evs) = batchCount L.
Proof.
  intros HB HM Hfuel.
  destruct (stream_run_total env cfg fuel tableName R columns st HB Hfuel)
    as (r & L & st' & Hrun & Hloop).
  apply page_loop_accounted in Hloop as (_ & evs & Htr & Hsum & _); [|done..].
  cbn in Htr, Hsum. rewrite Nat.sub_0_r in Hsum. by exists r, L, st', evs.
Qed.

Lemma every_batch_accounted_witness :
  exists r L st' evs,
    stream_run (flaky_env [id_column] twelve_rows) small_config 12 "t1" 12
      [id_column] empty_t1 = Some (r, L, st') /\
    trace st' = trace empty_t1 ++ evs /\
    length (batch_sizes evs) + length (abandoned evs) = batchCount L.
Proof.
  apply (every_batch_accounted (flaky_env [id_column] twelve_rows) small_config
           "t1" 12 [id_column] empty_t1 12); [vm_compute; lia..|lia].
Defined.

(** X21. With a positive batch size and retry count, every INSERT
    that succeeds carries at least one row and at most [BATCH_SIZE] rows. *)
Theorem inserted_batches_bounded env cfg tableName R columns st fuel :
  0 < BATCH_SIZE cfg -> 0 < MAX_RETRIES cfg -> R <= fuel ->
  exists res st' evs,
    copyTableDataStream env cfg fuel tableName R columns st = Some (res, st') /\
    trace st' = trace st ++ evs /\
    Forall (fun n => 1 <= n <= BATCH_SIZE cfg) (batch_sizes evs).
Proof.
  intros HB HM Hfuel.
  destruct (stream_run_total env cfg fuel tableName R columns st HB Hfuel)
    as (r & L & st' & Hrun & Hloop).
  unfold copyTableDataStream. rewrite Hrun.
  apply page_loop_accounted in Hloop as (_ & evs & Htr & _ & Hsz); [|done..].
  cbn in Htr. destruct r as [[]|]; cbn; by eexists _, _, evs.
Qed.

Lemma inserted_batches_bounded_witness :
  exists res st' evs,
    copyTableDataStream (steady_env [id_column] twelve_rows 0) small_config 12
      "t1" 12 [id_column] empty_t1 = Some (res, st') /\
    trace st' = trace empty_t1 ++ evs /\
    Forall (fun n => 1 <= n <= BATCH_SIZE small_config) (batch_sizes evs).
Proof.
  apply (inserted_batches_bounded (steady_env [id_column] twelve_rows 0)
           small_config "t1" 12 [id_column] empty_t1 12); [vm_compute; lia..|lia].
Defined.
